(** * Ranking metrics of the music-recommendation notebook

    A shallow embedding of the evaluation cells of
    [tables/automl/notebooks/music_recommendation/music_recommendation.ipynb]
    (section 4.3, "Evaluate predictions"): the precision@k / recall@k cell,
    [calculate_ap], and the MAP@k cell.

    Conventions of the embedding.
    - Floats.  The notebook computes in IEEE 754 binary64.  Module
      [Generic] embeds the cells over any float arithmetic [Arith]
      (addition, division, conversion of an integer); [binary64_arith]
      instantiates it with binary64, as Rocq's primitive floats, and
      [exact_arith] with the arithmetic of module [Np], where a float is a
      rational number or one of the three IEEE specials and no operation
      rounds.  The cells of the first sections are the generic ones at
      [exact_arith]; what is stated on them rests on a single division of
      two integers, on the special values, or on the structure of the
      computation (exceptions, lengths, the objects of the store).  What
      depends on how sums of floats round is stated on [Generic].
    - A NumPy [int64] is a [Z] kept in range by [wrap64].
    - A Python exception is a value of [exn]; code that can raise runs in
      the [result] monad, and code that also allocates or mutates list
      objects runs in the [Py] monad over an object store. *)

From Stdlib Require Import QArith Qround Ascii.
From Stdlib Require PrimFloat FloatOps SpecFloat.
From stdpp Require Import gmap strings list fin_maps.

#[local] Open Scope Z_scope.

(** ** Numbers *)

Module Np.

(** [np.float64]: finite values and the specials [inf], [-inf], [nan]. *)
Inductive float64 : Type :=
| Fin (q : Q)
| PInf
| NInf
| NaN.

Definition of_Z (z : Z) : float64 := Fin (inject_Z z).
Definition of_nat (n : nat) : float64 := of_Z (Z.of_nat n).

Definition Qsign (q : Q) : comparison := (0 ?= q)%Q.

(** [x + y] on [float64]. *)
Definition fadd (x y : float64) : float64 :=
  match x, y with
  | NaN, _ | _, NaN => NaN
  | Fin a, Fin b => Fin (a + b)
  | PInf, NInf | NInf, PInf => NaN
  | PInf, _ | _, PInf => PInf
  | NInf, _ | _, NInf => NInf
  end.

(** [x / y] on [float64] under NumPy's default error state: a zero
    divisor yields [nan] or an infinity (with a warning), never an
    exception. *)
Definition fdiv (x y : float64) : float64 :=
  match x, y with
  | NaN, _ | _, NaN => NaN
  | Fin a, Fin b =>
      match Qsign b with
      | Eq => match Qsign a with Eq => NaN | Lt => PInf | Gt => NInf end
      | _ => Fin (a / b)
      end
  | Fin _, _ => Fin 0
  | PInf, Fin b => match Qsign b with Gt => NInf | _ => PInf end
  | NInf, Fin b => match Qsign b with Gt => PInf | _ => NInf end
  | _, _ => NaN
  end.

(** Equality of floats as numbers; [nan] is identified with itself so
    that the relation is an equivalence on results. *)
Definition feq (x y : float64) : Prop :=
  match x, y with
  | Fin a, Fin b => (a == b)%Q
  | PInf, PInf | NInf, NInf | NaN, NaN => True
  | _, _ => False
  end.

(** [int64] wrap-around. *)
Definition wrap64 (z : Z) : Z := (z + 2 ^ 63) mod 2 ^ 64 - 2 ^ 63.

End Np.
Export Np.

(** ** Exceptions *)

Inductive exn : Type :=
| IndexError
| KeyError
| TypeError
| ZeroDivisionError.

Inductive result (A : Type) : Type :=
| Ok (a : A)
| Raise (e : exn).
Arguments Ok {A} a.
Arguments Raise {A} e.

#[global] Instance result_ret : MRet result := λ A a, Ok a.
#[global] Instance result_bind : MBind result := λ A B f r,
  match r with
  | Ok a => f a
  | Raise e => Raise e
  end.

Fixpoint rmapM {A B} (f : A → result B) (l : list A) : result (list B) :=
  match l with
  | [] => Ok []
  | x :: t => y ← f x; ys ← rmapM f t; Ok (y :: ys)
  end.

Fixpoint rfoldM {A S} (f : S → A → result S) (s : S) (l : list A) : result S :=
  match l with
  | [] => Ok s
  | x :: t => s' ← f s x; rfoldM f s' t
  end.

(** ** The prediction frame and the precision/recall cell *)

(** One row of the frame [df] returned by the evaluation query. *)
Record Row : Type := mkRow {
  user : string;
  song : string;
  score : Q;
  label : Z
}.

Module Pandas.

(** [s[:k]] for any integer [k]: positional slicing truncates at the end
    of the series, and a negative [k] counts from the end. *)
Definition slice_to {A} (k : Z) (s : list A) : list A :=
  if 0 <=? k then take (Z.to_nat k) s
  else take (Z.to_nat (Z.of_nat (length s) + k)) s.

(** [s.sum()] on an [int64] series. *)
Definition series_sum (s : list Z) : Z := wrap64 (fold_left Z.add s 0).

(** [a / b] on NumPy integer scalars: true division in [float64]. *)
Definition np_truediv (a b : Z) : result float64 :=
  Ok (fdiv (of_Z a) (of_Z b)).

(** [df["label"]] *)
Definition label_column (df : list Row) : list Z := label <$> df.

End Pandas.
Export Pandas.

(** [range(a, b)] *)
Definition range (a b : Z) : list Z := seqZ a (b - a).

(** [precision = df["label"][:k].sum() / k] *)
Definition precision (df : list Row) (k : Z) : result float64 :=
  np_truediv (series_sum (slice_to k (label_column df))) k.

(** [recall = df["label"][:k].sum() / df["label"].sum()] *)
Definition recall (df : list Row) (k : Z) : result float64 :=
  np_truediv (series_sum (slice_to k (label_column df)))
             (series_sum (label_column df)).

(** The body of [for user in users]: the two lists appended to while [k]
    runs over [range(1, 1000)].  The loop variable [user] is only the key
    under which the lists are stored. *)
Definition curves_for (df : list Row) (u : string)
  : result (list float64 * list float64) :=
  prs ← rmapM (λ k, p ← precision df k; r ← recall df k; Ok (p, r))
              (range 1 1000);
  Ok (prs.*1, prs.*2).

(** One iteration of [for user in users] on the two dictionaries. *)
Definition user_iteration (df : list Row)
    (dicts : gmap string (list float64) * gmap string (list float64))
    (u : string)
  : result (gmap string (list float64) * gmap string (list float64)) :=
  '(ps, rs) ← curves_for df u;
  Ok (<[u := ps]> dicts.1, <[u := rs]> dicts.2).

(** The loop of the cell, [for user in users], on the two empty
    dictionaries [precision_at_k] and [recall_at_k]. *)
Definition metrics_cell (users : list string) (df : list Row)
  : result (gmap string (list float64) * gmap string (list float64)) :=
  rfoldM (user_iteration df) (∅, ∅) users.

(** ** List objects and [calculate_ap] *)

(** [xs[i]] on the contents of a list, with Python's negative indices. *)
Definition getitem {A} (xs : list A) (i : Z) : result A :=
  let j := if i <? 0 then i + Z.of_nat (length xs) else i in
  if j <? 0 then Raise IndexError
  else match xs !! Z.to_nat j with
       | Some x => Ok x
       | None => Raise IndexError
       end.

Module Heap.

(** The object store: every Python list object lives at a location. *)
Abbreviation loc := positive (only parsing).
Abbreviation store := (gmap positive (list float64)) (only parsing).

Definition Py (A : Type) : Type := store → result (A * store).

#[global] Instance Py_ret : MRet Py := λ A a σ, Ok (a, σ).
#[global] Instance Py_bind : MBind Py := λ A B f m σ,
  match m σ with
  | Ok (a, σ') => f a σ'
  | Raise e => Raise e
  end.

(** A computation that does not touch the store. *)
Definition lift {A} (r : result A) : Py A := λ σ,
  match r with
  | Ok a => Ok (a, σ)
  | Raise e => Raise e
  end.

(** Contents of the list object at [r]; anything else is not a list. *)
Definition list_read (r : loc) : Py (list float64) := λ σ,
  match σ !! r with
  | Some xs => Ok (xs, σ)
  | None => Raise TypeError
  end.

(** A list display or comprehension: a new object. *)
Definition new_list (xs : list float64) : Py loc := λ σ,
  let r := fresh (dom σ) in Ok (r, <[r := xs]> σ).

(** [len(r)] *)
Definition list_len (r : loc) : Py Z :=
  xs ← list_read r; mret (Z.of_nat (length xs)).

(** [r[i]] *)
Definition list_getitem (r : loc) (i : Z) : Py float64 :=
  xs ← list_read r; lift (getitem xs i).

(** [r[i:]]: a new list object. *)
Definition list_slice_from (r : loc) (i : Z) : Py loc :=
  xs ← list_read r;
  let j := if i <? 0 then Z.max 0 (i + Z.of_nat (length xs)) else i in
  new_list (drop (Z.to_nat j) xs).

Definition list_write (r : loc) (xs : list float64) : Py unit := λ σ,
  Ok (tt, <[r := xs]> σ).

(** [r.append(x)]: mutates the object at [r]. *)
Definition list_append (r : loc) (x : float64) : Py unit :=
  xs ← list_read r; list_write r (xs ++ [x]).

Fixpoint for_each {A} (body : A → Py unit) (xs : list A) : Py unit :=
  match xs with
  | [] => mret tt
  | x :: t => _ ← body x; for_each body t
  end.

(** [for p in r: body], for a list [r] that the body does not reach. *)
Definition for_list (r : loc) (body : float64 → Py unit) : Py unit :=
  xs ← list_read r; for_each body xs.

End Heap.
Export Heap.

(** [def calculate_ap(precision)] *)
Definition calculate_ap (precision : loc) : Py loc :=
  p0 ← list_getitem precision 0;
  ap ← new_list [p0];
  rest ← list_slice_from precision 1;
  _ ← for_list rest (λ p,
        last ← list_getitem ap (-1);
        list_append ap (fadd last p));
  n ← list_len ap;
  xs ← list_read ap;
  new_list ((λ '(x, n), fdiv x (of_Z (n + 1))) <$> zip xs (range 0 n)).

Definition empty_store : store := {[ 5%positive := [] ]}.

(** ** The MAP@k cell *)

Module Python.

(** What the builtin [sum] can hold here: its [int] start value or a
    NumPy float. *)
Inductive pynum : Type :=
| PyInt (z : Z)
| NpFloat (f : float64).

(** [acc + x] for a float [x]. *)
Definition py_add (acc : pynum) (x : float64) : pynum :=
  match acc with
  | PyInt z => NpFloat (fadd (of_Z z) x)
  | NpFloat f => NpFloat (fadd f x)
  end.

(** [sum(xs)]: left to right from the integer [0]. *)
Definition py_sum (xs : list float64) : pynum := fold_left py_add xs (PyInt 0).

(** [x / n] for an [int] [n]: Python integers raise on a zero divisor,
    NumPy floats do not. *)
Definition py_truediv (x : pynum) (n : Z) : result float64 :=
  match x with
  | PyInt z => if n =? 0 then Raise ZeroDivisionError
               else Ok (Fin (inject_Z z / inject_Z n))
  | NpFloat f => Ok (fdiv f (of_Z n))
  end.

(** [d[key]] *)
Definition dict_getitem {V} (d : gmap string V) (key : string) : result V :=
  match d !! key with
  | Some v => Ok v
  | None => Raise KeyError
  end.

End Python.
Export Python.

Definition num_k : Z := 500.

(** [sum([ap_at_k[user][k] for user in users]) / len(users)] *)
Definition map_at (ap_at_k : gmap string (list float64)) (users : list string)
    (k : Z) : result float64 :=
  vals ← rmapM (λ u, curve ← dict_getitem ap_at_k u; getitem curve k) users;
  py_truediv (py_sum vals) (Z.of_nat (length users)).

(** [map_at_k = [... for k in range(num_k)]] *)
Definition map_at_k (ap_at_k : gmap string (list float64))
    (users : list string) : result (list float64) :=
  rmapM (map_at ap_at_k users) (range 0 num_k).

(** ** Reference notions used to state the properties *)

(** Contents of [ap] after the loop has consumed [ps], starting from a
    last element [acc]. *)
Fixpoint running_sums (acc : float64) (ps : list float64) : list float64 :=
  match ps with
  | [] => []
  | p :: t => fadd acc p :: running_sums (fadd acc p) t
  end.

(** The comprehension [[x / (n + 1) for x, n in zip(ap, range(len(ap)))]]. *)
Definition averaged (xs : list float64) : list float64 :=
  (λ '(x, n), fdiv x (of_Z (n + 1))) <$> zip xs (range 0 (Z.of_nat (length xs))).

(** The rows of the frame that belong to one user, in rank order. *)
Definition rows_of (u : string) (df : list Row) : list Row :=
  filter (λ r, user r = u) df.

(** Relevance labels are 0 or 1. *)
Definition binary (labels : list Z) : Prop := Forall (λ x, x = 0 ∨ x = 1) labels.

(** Number of relevant entries. *)
Definition relevant_count (labels : list Z) : nat :=
  length (filter (λ x, x = 1) labels).

(** 1-based rank of the last relevant entry, 0 when there is none. *)
Fixpoint last_relevant (labels : list Z) : nat :=
  match labels with
  | [] => 0
  | x :: t =>
      match last_relevant t with
      | O => if decide (x = 1) then 1 else 0
      | S n => S (S n)
      end
  end.

(** Equality of outcomes: the same exception, or equal numbers. *)
Definition req (x y : result float64) : Prop :=
  match x, y with
  | Ok a, Ok b => feq a b
  | Raise e, Raise e' => e = e'
  | _, _ => False
  end.

(** ** The AP dictionary *)

(** The call [calculate_ap(pk)] on the contents of a list: the call is run
    in a store that holds the argument, and the returned object is read
    back.  The contents returned are the same in every store that holds the
    argument ([run_calculate_ap_any_store] below). *)
Definition run_calculate_ap (pk : list float64) : result (list float64) :=
  match calculate_ap 1%positive {[ 1%positive := pk ]} with
  | Ok (r, σ') =>
      match σ' !! r with
      | Some out => Ok out
      | None => Raise TypeError
      end
  | Raise e => Raise e
  end.

(** One item [user, pk] of the comprehension: the call and the new entry. *)
Definition ap_step (acc : gmap string (list float64))
    (item : string * list float64) : result (gmap string (list float64)) :=
  out ← run_calculate_ap item.2; Ok (<[item.1 := out]> acc).

(** [{user: calculate_ap(pk) for user, pk in items}], for the items in the
    order in which the dictionary yields them. *)
Definition ap_items (items : list (string * list float64))
  : result (gmap string (list float64)) :=
  rfoldM ap_step ∅ items.

(** [ap_at_k = {user: calculate_ap(pk) for user, pk in precision_at_k.items()}] *)
Definition ap_cell (precision_at_k : gmap string (list float64))
  : result (gmap string (list float64)) :=
  ap_items (map_to_list precision_at_k).

(** The precision/recall cell as a whole: the loop, then the arguments of
    [sns.lineplot(recall_at_k[users[0]], precision_at_k[users[0]])].  The
    plotting library is outside the model; the calls on [ax] that follow
    take no argument from the dictionaries. *)
Definition precision_recall_cell (users : list string) (df : list Row)
  : result (gmap string (list float64) * gmap string (list float64)) :=
  '(pk, rk) ← metrics_cell users df;
  u ← getitem users 0;
  _ ← dict_getitem rk u;
  u' ← getitem users 0;
  _ ← dict_getitem pk u';
  Ok (pk, rk).

(** The MAP cell as a whole: [ap_at_k], [map_at_k] and the argument
    [map_at_k[49]] of the [print]; the plot of [map_at_k] that follows is
    outside the model. *)
Definition map_cell (precision_at_k : gmap string (list float64))
    (users : list string)
  : result (gmap string (list float64) * list float64) :=
  ap ← ap_cell precision_at_k;
  maps ← map_at_k ap users;
  _ ← getitem maps 49;
  Ok (ap, maps).

(** The two cells run in sequence; the run stops at the first exception. *)
Definition evaluation (users : list string) (df : list Row)
  : result (gmap string (list float64) * gmap string (list float64)
            * gmap string (list float64) * list float64) :=
  '(pk, rk) ← precision_recall_cell users df;
  '(ap, maps) ← map_cell pk users;
  Ok (pk, rk, ap, maps).

(** ** Dataset names *)

Module Str.

(** [s[n:]] for [n >= 0]. *)
Fixpoint slice_from (n : nat) (s : string) : string :=
  match n, s with
  | O, _ => s
  | S _, EmptyString => EmptyString
  | S n', String _ s' => slice_from n' s'
  end.

(** [s.replace(old, new)] for a non-empty [old]: occurrences are replaced
    from the left and do not overlap; [skip] counts the characters of a
    matched occurrence that are still to be passed over. *)
Fixpoint replace_go (old new : string) (skip : nat) (s : string) : string :=
  match s with
  | EmptyString => EmptyString
  | String c s' =>
      match skip with
      | S n => replace_go old new n s'
      | O =>
          if String.prefix old s
          then String.append new (replace_go old new (String.length old - 1) s')
          else String c (replace_go old new 0 s')
      end
  end.

Fixpoint interleave (new s : string) : string :=
  match s with
  | EmptyString => EmptyString
  | String c s' => String c (String.append new (interleave new s'))
  end.

(** [s.replace(old, new)]; an empty [old] matches before every character
    and at the end. *)
Definition replace (old new s : string) : string :=
  match old with
  | EmptyString => String.append new (interleave new s)
  | String _ _ => replace_go old new 0 s
  end.

(** [c in s] for a character [c]. *)
Fixpoint occurs (c : Ascii.ascii) (s : string) : Prop :=
  match s with
  | EmptyString => False
  | String c' s' => c = c' ∨ occurs c s'
  end.

End Str.

(** [output_uri[5:].replace(":", ".")] *)
Definition dataset_id (output_uri : string) : string :=
  Str.replace ":" "." (Str.slice_from 5 output_uri).

(** ** Further reference notions *)

(** The running means of a sequence, as a function of its contents. *)
Definition ap_values (ps : list float64) : list float64 :=
  match ps with
  | [] => []
  | x :: t => averaged (x :: running_sums x t)
  end.

(** ** The cells over any float arithmetic *)

(** The three operations that the cells apply to floats: [x + y], [x / y]
    (under NumPy's default error state) and the conversion of an integer
    operand. *)
Class Arith (F : Type) : Type := {
  f_add : F → F → F;
  f_div : F → F → F;
  f_of_int : Z → F
}.

(** The arithmetic of [Np]: no operation rounds. *)
#[global] Instance exact_arith : Arith float64 :=
  {| f_add := fadd; f_div := fdiv; f_of_int := of_Z |}.

Module B64.

(** IEEE 754 binary64, the arithmetic of [np.float64] and of Python's
    [float], as Rocq's primitive floats. *)
Abbreviation float := PrimFloat.float (only parsing).

(** The float nearest to an integer (ties to even). *)
Definition of_Z (z : Z) : float :=
  FloatOps.SF2Prim (SpecFloat.binary_normalize FloatOps.prec FloatOps.emax z 0 false).

(** The float that the literal [a / b] or the decimal [a/b] denotes: the
    nearest float to the quotient, for instance [ratio 667 1000] for
    [0.667]. *)
Definition ratio (a b : Z) : float := PrimFloat.div (of_Z a) (of_Z b).

(** The exact value of a finite float. *)
Definition exact (x : float) : option Q :=
  match FloatOps.Prim2SF x with
  | SpecFloat.S754_zero _ => Some 0%Q
  | SpecFloat.S754_finite s m e =>
      Some (inject_Z (if s then Z.neg m else Z.pos m) * 2 ^ e)%Q
  | _ => None
  end.

(** A finite float rounded to three decimals, in thousandths. *)
Definition round3 (x : float) : option Z :=
  match exact x with
  | Some q => Some (Qfloor (q * 1000 + (1 # 2))%Q)
  | None => None
  end.

End B64.

#[global] Instance binary64_arith : Arith B64.float :=
  {| f_add := PrimFloat.add; f_div := PrimFloat.div; f_of_int := B64.of_Z |}.

Module Generic.
Section Cells.

Context {F : Type} `{Arith F}.

(** [a / b] on NumPy integer scalars. *)
Definition np_truediv (a b : Z) : result F :=
  Ok (f_div (f_of_int a) (f_of_int b)).

(** [precision = df["label"][:k].sum() / k] *)
Definition precision (df : list Row) (k : Z) : result F :=
  np_truediv (series_sum (slice_to k (label_column df))) k.

(** [recall = df["label"][:k].sum() / df["label"].sum()] *)
Definition recall (df : list Row) (k : Z) : result F :=
  np_truediv (series_sum (slice_to k (label_column df)))
             (series_sum (label_column df)).

(** The object store of lists of floats, and the monad of [Heap]. *)
Definition Py (A : Type) : Type :=
  gmap positive (list F) → result (A * gmap positive (list F)).

#[local] Instance Py_ret : MRet Py := λ A a σ, Ok (a, σ).
#[local] Instance Py_bind : MBind Py := λ A B f m σ,
  match m σ with
  | Ok (a, σ') => f a σ'
  | Raise e => Raise e
  end.

Definition lift {A} (r : result A) : Py A := λ σ,
  match r with
  | Ok a => Ok (a, σ)
  | Raise e => Raise e
  end.

Definition list_read (r : positive) : Py (list F) := λ σ,
  match σ !! r with
  | Some xs => Ok (xs, σ)
  | None => Raise TypeError
  end.

Definition new_list (xs : list F) : Py positive := λ σ,
  let r := fresh (dom σ) in Ok (r, <[r := xs]> σ).

Definition list_len (r : positive) : Py Z :=
  xs ← list_read r; mret (Z.of_nat (length xs)).

Definition list_getitem (r : positive) (i : Z) : Py F :=
  xs ← list_read r; lift (getitem xs i).

Definition list_slice_from (r : positive) (i : Z) : Py positive :=
  xs ← list_read r;
  let j := if i <? 0 then Z.max 0 (i + Z.of_nat (length xs)) else i in
  new_list (drop (Z.to_nat j) xs).

Definition list_write (r : positive) (xs : list F) : Py unit := λ σ,
  Ok (tt, <[r := xs]> σ).

Definition list_append (r : positive) (x : F) : Py unit :=
  xs ← list_read r; list_write r (xs ++ [x]).

Fixpoint for_each {A} (body : A → Py unit) (xs : list A) : Py unit :=
  match xs with
  | [] => mret tt
  | x :: t => _ ← body x; for_each body t
  end.

Definition for_list (r : positive) (body : F → Py unit) : Py unit :=
  xs ← list_read r; for_each body xs.

(** [def calculate_ap(precision)] *)
Definition calculate_ap (precision : positive) : Py positive :=
  p0 ← list_getitem precision 0;
  ap ← new_list [p0];
  rest ← list_slice_from precision 1;
  _ ← for_list rest (λ p,
        last ← list_getitem ap (-1);
        list_append ap (f_add last p));
  n ← list_len ap;
  xs ← list_read ap;
  new_list ((λ '(x, n), f_div x (f_of_int (n + 1))) <$> zip xs (range 0 n)).

(** What the builtin [sum] can hold: its [int] start value or a float. *)
Inductive pynum : Type :=
| PyInt (z : Z)
| NpFloat (f : F).

Definition py_add (acc : pynum) (x : F) : pynum :=
  match acc with
  | PyInt z => NpFloat (f_add (f_of_int z) x)
  | NpFloat f => NpFloat (f_add f x)
  end.

Definition py_sum (xs : list F) : pynum := fold_left py_add xs (PyInt 0).

Definition py_truediv (x : pynum) (n : Z) : result F :=
  match x with
  | PyInt z => if n =? 0 then Raise ZeroDivisionError
               else Ok (f_div (f_of_int z) (f_of_int n))
  | NpFloat f => Ok (f_div f (f_of_int n))
  end.

(** [sum([ap_at_k[user][k] for user in users]) / len(users)] *)
Definition map_at (ap_at_k : gmap string (list F)) (users : list string)
    (k : Z) : result F :=
  vals ← rmapM (λ u, curve ← dict_getitem ap_at_k u; getitem curve k) users;
  py_truediv (py_sum vals) (Z.of_nat (length users)).

(** Contents of [ap] after the loop, and the final comprehension. *)
Fixpoint running_sums (acc : F) (ps : list F) : list F :=
  match ps with
  | [] => []
  | p :: t => f_add acc p :: running_sums (f_add acc p) t
  end.

Definition averaged (xs : list F) : list F :=
  (λ '(x, n), f_div x (f_of_int (n + 1))) <$> zip xs (range 0 (Z.of_nat (length xs))).

(** The float expression [x1 + x2 + ... + xn], evaluated from the left. *)
Definition sum_left (xs : list F) : F :=
  match xs with
  | [] => f_of_int 0
  | x :: t => fold_left f_add t x
  end.

(** The float expression [0 + x1 + ... + xn] of the builtin [sum], divided
    by [n]. *)
Definition mean_left (xs : list F) : F :=
  f_div (fold_left f_add xs (f_of_int 0)) (f_of_int (Z.of_nat (length xs))).

(** The values [ap_at_k[u][i]] of the users that have one, in the order of
    the user list. *)
Definition entries (ap_at_k : gmap string (list F)) (i : nat)
    (users : list string) : list F :=
  omap (λ u, match ap_at_k !! u with
             | Some curve => curve !! i
             | None => None
             end) users.

End Cells.
End Generic.

(** ** Sample data *)

Definition demo_df : list Row :=
  [mkRow "fiveofoh" "a" (9 # 10) 0; mkRow "rob" "b" (8 # 10) 1].

Definition demo_ap : gmap string (list float64) :=
  {[ "rob" := [Fin 1; Fin (3 # 4); Fin (722 # 1000)];
     "fiveofoh" := [Fin (1 # 2); Fin (1 # 2); Fin (1 # 2)] ]}.

Definition scenario_df : list Row :=
  [mkRow "rob" "a" (9 # 10) 1; mkRow "rob" "b" (8 # 10) 0;
   mkRow "rob" "c" (7 # 10) 1; mkRow "rob" "d" (6 # 10) 0].

Definition long_ap : gmap string (list float64) :=
  {[ "rob" := replicate 500 (Fin 1); "fiveofoh" := replicate 600 (Fin 0) ]}.

(** Binary64 samples: the precisions [1.0, 0.5, 0.667]; a frame with the
    labels 0, 1, 0 and its precisions [0/1, 1/2, 1/3]; three users with
    the AP values 0.1, 0.2 and 0.3, in binary64 and without rounding. *)
Definition b64_store : gmap positive (list B64.float) :=
  {[ 5%positive := [B64.ratio 1 1; B64.ratio 1 2; B64.ratio 667 1000] ]}.

Definition thirds_df : list Row :=
  [mkRow "rob" "a" (9 # 10) 0; mkRow "rob" "b" (8 # 10) 1;
   mkRow "rob" "c" (7 # 10) 0].

Definition thirds : list B64.float :=
  [B64.ratio 0 1; B64.ratio 1 2; B64.ratio 1 3].

Definition thirds_store : gmap positive (list B64.float) :=
  {[ 5%positive := thirds ]}.

Definition tenths_exact_ap : gmap string (list float64) :=
  {[ "rob" := [Fin (1 # 10)]; "fiveofoh" := [Fin (2 # 10)];
     "Aerion" := [Fin (3 # 10)] ]}.

Definition tenths_ap : gmap string (list B64.float) :=
  {[ "rob" := [B64.ratio 1 10]; "fiveofoh" := [B64.ratio 2 10];
     "Aerion" := [B64.ratio 3 10] ]}.

Definition irrelevant_df : list Row :=
  [mkRow "rob" "a" (9 # 10) 0; mkRow "rob" "b" (8 # 10) 0].

Definition demo_store : store :=
  {[ 5%positive := [Fin 1; Fin (1 # 2); Fin (667 # 1000)] ]}.

(** Discharges [binary] on a concrete column. *)
Ltac binary_labels :=
  unfold binary; simpl; repeat (constructor; [lia|]); constructor.

(** ** Arithmetic of the number model *)

Section FloatAlgebra.

#[global] Instance feq_equiv : Equivalence feq.
Proof.
  split.
  - intros []; simpl; auto with qarith.
  - intros [] []; simpl; auto with qarith.
  - intros [] [] []; simpl; try tauto. apply Qeq_trans.
Qed.

Lemma Qsign_proper (a b : Q) : (a == b)%Q → Qsign a = Qsign b.
Proof. intros H. unfold Qsign. now rewrite H. Qed.

#[global] Instance fadd_proper : Proper (feq ==> feq ==> feq) fadd.
Proof.
  intros [] [] Hx [] [] Hy; simpl in *; try tauto.
  now rewrite Hx, Hy.
Qed.

#[global] Instance fdiv_proper : Proper (feq ==> feq ==> feq) fdiv.
Proof.
  intros [a| | |] [a'| | |] Hx [b| | |] [b'| | |] Hy; simpl in *; try tauto;
    try (rewrite (Qsign_proper _ _ Hy)); try (rewrite (Qsign_proper _ _ Hx));
    repeat case_match; simpl; try tauto; try reflexivity.
  all: now rewrite Hx, Hy.
Qed.

Lemma fadd_comm (x y : float64) : feq (fadd x y) (fadd y x).
Proof. destruct x, y; simpl; try tauto. apply Qplus_comm. Qed.

Lemma fadd_assoc (x y z : float64) :
  feq (fadd x (fadd y z)) (fadd (fadd x y) z).
Proof. destruct x, y, z; simpl; try tauto. apply Qplus_assoc. Qed.

Lemma fadd_0_l (x : float64) : feq (fadd (Fin 0) x) x.
Proof. destruct x; simpl; try tauto. apply Qplus_0_l. Qed.

Lemma fadd_0_r (x : float64) : feq (fadd x (Fin 0)) x.
Proof. destruct x; simpl; try tauto. apply Qplus_0_r. Qed.

End FloatAlgebra.

(** ** Integer label sums *)

Section LabelSums.

Lemma wrap64_small (z : Z) : - 2 ^ 63 ≤ z < 2 ^ 63 → wrap64 z = z.
Proof.
  intros H. unfold wrap64.
  rewrite Z.mod_small by lia. lia.
Qed.

Lemma fold_left_add_shift (l : list Z) (a : Z) :
  fold_left Z.add l a = a + fold_left Z.add l 0.
Proof.
  revert a. induction l as [|x l IH]; intros a; simpl; [lia|].
  rewrite (IH (a + x)), (IH (0 + x)). lia.
Qed.

Lemma binary_sum_count (l : list Z) :
  binary l → fold_left Z.add l 0 = Z.of_nat (relevant_count l).
Proof.
  unfold binary, relevant_count.
  induction 1 as [|x l Hx _ IH]; simpl; [done|].
  rewrite fold_left_add_shift, IH, filter_cons.
  destruct Hx as [-> | ->]; case_decide; simpl; lia.
Qed.

Lemma relevant_count_le_length (l : list Z) : (relevant_count l ≤ length l)%nat.
Proof. apply length_filter. Qed.

Lemma binary_take (n : nat) (l : list Z) : binary l → binary (take n l).
Proof. apply Forall_take. Qed.

Lemma relevant_count_app (l1 l2 : list Z) :
  relevant_count (l1 ++ l2) = (relevant_count l1 + relevant_count l2)%nat.
Proof. unfold relevant_count. now rewrite filter_app, length_app. Qed.

Lemma relevant_count_take_mono (l : list Z) (n m : nat) :
  (n ≤ m)%nat → (relevant_count (take n l) ≤ relevant_count (take m l))%nat.
Proof.
  intros Hnm. replace m with (n + (m - n))%nat by lia.
  rewrite <- take_take_drop, relevant_count_app. lia.
Qed.

Lemma relevant_count_take_le (l : list Z) (n : nat) :
  (relevant_count (take n l) ≤ relevant_count l)%nat.
Proof.
  rewrite <- (take_drop n l) at 2. rewrite relevant_count_app. lia.
Qed.

Lemma series_sum_binary (l : list Z) :
  binary l → Z.of_nat (length l) < 2 ^ 63 →
  series_sum l = Z.of_nat (relevant_count l).
Proof.
  intros Hb Hlen. unfold series_sum. rewrite binary_sum_count by done.
  pose proof (relevant_count_le_length l).
  apply wrap64_small. lia.
Qed.

Lemma slice_to_nonneg {A} (k : Z) (s : list A) :
  0 ≤ k → slice_to k s = take (Z.to_nat k) s.
Proof. intros H. unfold slice_to. now rewrite (proj2 (Z.leb_le 0 k)). Qed.

Lemma slice_to_beyond {A} (k : Z) (s : list A) :
  Z.of_nat (length s) ≤ k → slice_to k s = s.
Proof.
  intros H. rewrite slice_to_nonneg by lia. apply take_ge. lia.
Qed.

End LabelSums.

(** ** Precision and recall at a cut-off *)

Section PrecisionRecall.

Lemma Qsign_inject_Z (b : Z) : Qsign (inject_Z b) = (0 ?= b).
Proof. unfold Qsign, Qcompare. simpl. now rewrite Z.mul_1_r. Qed.

Lemma fdiv_of_Z_pos (a b : Z) :
  0 < b → fdiv (of_Z a) (of_Z b) = Fin (inject_Z a / inject_Z b).
Proof.
  intros Hb. unfold of_Z, fdiv. rewrite Qsign_inject_Z.
  now rewrite (proj2 (Z.compare_lt_iff 0 b) Hb).
Qed.

Lemma fdiv_of_Z_zero (a : Z) :
  fdiv (of_Z a) (of_Z 0) =
    match 0 ?= a with Eq => NaN | Lt => PInf | Gt => NInf end.
Proof. unfold of_Z, fdiv. now rewrite !Qsign_inject_Z. Qed.

Lemma Qdiv_inject_Z_bounds (c k : Z) :
  0 ≤ c ≤ k → 0 < k →
  (0 <= inject_Z c / inject_Z k <= 1)%Q.
Proof.
  intros [Hc Hck] Hk.
  assert (Hk' : (0 < inject_Z k)%Q) by (now rewrite (Zlt_Qlt 0 k) in Hk).
  split.
  - apply Qle_shift_div_l; [done|]. rewrite Qmult_0_l.
    now rewrite (Zle_Qle 0 c) in Hc.
  - apply Qle_shift_div_r; [done|]. rewrite Qmult_1_l.
    now rewrite (Zle_Qle c k) in Hck.
Qed.

Lemma Qdiv_inject_Z_mono (a b t : Z) :
  a ≤ b → 0 < t → (inject_Z a / inject_Z t <= inject_Z b / inject_Z t)%Q.
Proof.
  intros Hab Ht.
  assert (Ht' : (0 < inject_Z t)%Q) by (now rewrite (Zlt_Qlt 0 t) in Ht).
  apply Qle_shift_div_l; [done|].
  unfold Qdiv. rewrite <- Qmult_assoc, (Qmult_comm (/ _)), Qmult_inv_r, Qmult_1_r.
  - now rewrite (Zle_Qle a b) in Hab.
  - intros E. rewrite E in Ht'. now apply Qlt_irrefl in Ht'.
Qed.

(** On binary labels the sliced sum is the number of relevant entries
    among the first [k]. *)
Lemma top_k_sum (df : list Row) (k : Z) :
  binary (label_column df) → Z.of_nat (length df) < 2 ^ 63 → 0 ≤ k →
  series_sum (slice_to k (label_column df)) =
    Z.of_nat (relevant_count (take (Z.to_nat k) (label_column df))).
Proof.
  intros Hb Hlen Hk. rewrite slice_to_nonneg by done.
  apply series_sum_binary; [now apply binary_take|].
  rewrite length_take. unfold label_column. rewrite length_fmap. lia.
Qed.

Lemma total_sum (df : list Row) :
  binary (label_column df) → Z.of_nat (length df) < 2 ^ 63 →
  series_sum (label_column df) = Z.of_nat (relevant_count (label_column df)).
Proof.
  intros Hb Hlen. apply series_sum_binary; [done|].
  unfold label_column. now rewrite length_fmap.
Qed.

(** Once every relevant entry is inside the first [k], the count of the
    prefix is the count of the whole list. *)
Lemma relevant_count_after_last (l : list Z) (k : nat) :
  (last_relevant l ≤ k)%nat → relevant_count (take k l) = relevant_count l.
Proof.
  revert k. induction l as [|x l IH]; intros k Hk.
  - now rewrite take_nil.
  - simpl in Hk. destruct k as [|k].
    + destruct (last_relevant l) eqn:E; [|lia].
      case_decide; [lia|].
      specialize (IH 0%nat ltac:(lia)). rewrite take_0 in IH.
      simpl. unfold relevant_count in *. rewrite filter_cons.
      case_decide; [done|]. apply IH.
    + simpl. unfold relevant_count in *. rewrite !filter_cons.
      assert (Hl : (last_relevant l ≤ k)%nat).
      { destruct (last_relevant l); [lia|]. lia. }
      case_decide; simpl; rewrite IH; done.
Qed.

Lemma slice_to_prefix {A} (k : Z) (s : list A) :
  ∃ n : nat, slice_to k s = take n s.
Proof. unfold slice_to. case_match; eauto. Qed.

End PrecisionRecall.



(** C6. On a frame with 0/1 labels and a positive total, recall@k does not
    decrease as the cut-off grows over the valid range. *)
Theorem recall_monotone (df : list Row) (k1 k2 : Z) :
  binary (label_column df) →
  Z.of_nat (length df) < 2 ^ 63 →
  0 < series_sum (label_column df) →
  1 ≤ k1 → k1 ≤ k2 → k2 ≤ Z.of_nat (length df) →
  ∃ r1 r2 : Q,
    recall df k1 = Ok (Fin r1) ∧ recall df k2 = Ok (Fin r2) ∧ (r1 <= r2)%Q.
Proof.
  intros Hb Hlen Htot H1 H12 H2. unfold recall, np_truediv.
  rewrite !top_k_sum by (done || lia).
  rewrite !fdiv_of_Z_pos by done.
  do 2 eexists. split; [reflexivity|]. split; [reflexivity|].
  apply Qdiv_inject_Z_mono; [|done].
  apply inj_le, relevant_count_take_mono. lia.
Qed.

Lemma recall_monotone_witness :
  ∃ r1 r2 : Q,
    recall demo_df 1 = Ok (Fin r1) ∧ recall demo_df 2 = Ok (Fin r2) ∧
    (r1 <= r2)%Q.
Proof.
  apply (recall_monotone demo_df 1 2).
  - binary_labels.
  - vm_compute. reflexivity.
  - vm_compute. reflexivity.
  - lia.
  - lia.
  - simpl. lia.
Defined.

(** C8. The total is the sum of the frame's own label column, so the frame
    holds every relevant item.  With 0/1 labels and a positive total,
    recall@k is exactly 1 for every cut-off at or beyond the rank of the
    last relevant row. *)
Theorem recall_reaches_one (df : list Row) (k : Z) :
  binary (label_column df) →
  Z.of_nat (length df) < 2 ^ 63 →
  0 < series_sum (label_column df) →
  Z.of_nat (last_relevant (label_column df)) ≤ k →
  ∃ r : Q, recall df k = Ok (Fin r) ∧ (r == 1)%Q.
Proof.
  intros Hb Hlen Htot Hk. unfold recall, np_truediv.
  rewrite top_k_sum by (done || lia).
  rewrite relevant_count_after_last by lia.
  rewrite total_sum in * by done.
  rewrite fdiv_of_Z_pos by done.
  eexists. split; [reflexivity|].
  apply Qmult_inv_r. intros E.
  rewrite (Zlt_Qlt 0) in Htot. rewrite E in Htot. now apply Qlt_irrefl in Htot.
Qed.

Lemma recall_reaches_one_witness :
  ∃ r : Q, recall demo_df 2 = Ok (Fin r) ∧ (r == 1)%Q.
Proof.
  apply (recall_reaches_one demo_df 2).
  - binary_labels.
  - vm_compute. reflexivity.
  - vm_compute. reflexivity.
  - vm_compute. discriminate.
Defined.

(** C2, as stated, fails: with two rows and [k = 5] both metrics are
    computed from the truncated slice and nothing is raised. *)
Lemma invalid_k_raises_counterexample :
  5 > Z.of_nat (length demo_df) ∧
  precision demo_df 5 = Ok (Fin (1 # 5)) ∧
  recall demo_df 5 = Ok (Fin (1 # 1)) ∧
  ¬ (∀ (df : list Row) (k : Z),
       k < 1 ∨ k > Z.of_nat (length df) →
       (∃ e, precision df k = Raise e) ∧ (∃ e, recall df k = Raise e)).
Proof.
  split; [simpl; lia|]. split; [vm_compute; reflexivity|].
  split; [vm_compute; reflexivity|].
  intros H. destruct (H demo_df 5) as [[e He] _]; [simpl; lia|].
  vm_compute in He. discriminate.
Qed.

(** C2, amended.  For a cut-off outside [1 .. len(df)] precision@k and
    recall@k raise nothing and return a float.  Beyond the end the slice is
    silently truncated, so both are computed from the whole column; below
    zero the slice counts from the end of the column. *)
Theorem invalid_k_is_silent (df : list Row) (k : Z) :
  k < 1 ∨ k > Z.of_nat (length df) →
  (∃ p r : float64, precision df k = Ok p ∧ recall df k = Ok r) ∧
  (k > Z.of_nat (length df) →
     precision df k = np_truediv (series_sum (label_column df)) k ∧
     recall df k = np_truediv (series_sum (label_column df))
                              (series_sum (label_column df))) ∧
  (k < 0 →
     let top := take (Z.to_nat (Z.of_nat (length df) + k)) (label_column df) in
     precision df k = np_truediv (series_sum top) k ∧
     recall df k = np_truediv (series_sum top) (series_sum (label_column df))).
Proof.
  intros _. split; [|split].
  - unfold precision, recall, np_truediv. eauto.
  - intros Hk. unfold precision, recall.
    rewrite slice_to_beyond; [done|].
    unfold label_column. rewrite length_fmap. lia.
  - intros Hk top. unfold precision, recall, slice_to.
    rewrite (proj2 (Z.leb_gt 0 k)) by done.
    unfold label_column in *. rewrite length_fmap. done.
Qed.

Lemma invalid_k_is_silent_witness :
  (∃ p r : float64, precision demo_df 5 = Ok p ∧ recall demo_df 5 = Ok r) ∧
  (5 > Z.of_nat (length demo_df) →
     precision demo_df 5 = np_truediv (series_sum (label_column demo_df)) 5 ∧
     recall demo_df 5 = np_truediv (series_sum (label_column demo_df))
                                   (series_sum (label_column demo_df))) ∧
  (5 < 0 →
     let top := take (Z.to_nat (Z.of_nat (length demo_df) + 5))
                     (label_column demo_df) in
     precision demo_df 5 = np_truediv (series_sum top) 5 ∧
     recall demo_df 5 = np_truediv (series_sum top)
                                   (series_sum (label_column demo_df))).
Proof.
  apply (invalid_k_is_silent demo_df 5). right. simpl. lia.
Defined.

(** C4, as stated, fails: on a frame without relevant rows the division is
    carried out and the recall is [nan]; no condition is signalled. *)
Lemma recall_zero_total_counterexample :
  series_sum (label_column irrelevant_df) = 0 ∧
  recall irrelevant_df 1 = Ok NaN.
Proof. split; vm_compute; reflexivity. Qed.

(** C4, amended.  When the total of the label column is zero, recall@k
    still performs the division and raises nothing: the result is [nan]
    when the top-[k] sum is zero as well, which is always the case for 0/1
    labels, and an infinity otherwise. *)
Theorem recall_zero_total (df : list Row) (k : Z) :
  series_sum (label_column df) = 0 →
  recall df k =
    Ok (match 0 ?= series_sum (slice_to k (label_column df)) with
        | Eq => NaN
        | Lt => PInf
        | Gt => NInf
        end) ∧
  (binary (label_column df) → Z.of_nat (length df) < 2 ^ 63 →
   recall df k = Ok NaN).
Proof.
  intros Htot.
  assert (Hgen : recall df k =
    Ok (match 0 ?= series_sum (slice_to k (label_column df)) with
        | Eq => NaN | Lt => PInf | Gt => NInf end)).
  { unfold recall, np_truediv. now rewrite Htot, fdiv_of_Z_zero. }
  split; [done|]. intros Hb Hlen. rewrite Hgen.
  destruct (slice_to_prefix k (label_column df)) as [n ->].
  rewrite series_sum_binary.
  - rewrite total_sum in Htot by done.
    pose proof (relevant_count_take_le (label_column df) n).
    replace (relevant_count (take n (label_column df))) with 0%nat by lia.
    done.
  - now apply binary_take.
  - rewrite length_take. unfold label_column. rewrite length_fmap. lia.
Qed.

Lemma recall_zero_total_witness :
  recall irrelevant_df 1 =
    Ok (match 0 ?= series_sum (slice_to 1 (label_column irrelevant_df)) with
        | Eq => NaN
        | Lt => PInf
        | Gt => NInf
        end) ∧
  (binary (label_column irrelevant_df) →
   Z.of_nat (length irrelevant_df) < 2 ^ 63 →
   recall irrelevant_df 1 = Ok NaN).
Proof.
  apply (recall_zero_total irrelevant_df 1). vm_compute. reflexivity.
Defined.

(** ** The per-user loop *)

Lemma rmapM_total {A B} (f : A → result B) (l : list A) :
  (∀ x, ∃ y, f x = Ok y) → ∃ ys, rmapM f l = Ok ys.
Proof.
  intros Hf. induction l as [|x l [ys IH]]; simpl; [eauto|].
  destruct (Hf x) as [y ->]. rewrite IH. simpl. eauto.
Qed.

Section PerUserLoop.

Variable df : list Row.

(** The curves do not depend on the user they are stored under. *)
Lemma curves_for_any_user (u u' : string) : curves_for df u = curves_for df u'.
Proof. reflexivity. Qed.

Lemma curves_for_ok (u : string) : ∃ ps rs, curves_for df u = Ok (ps, rs).
Proof.
  unfold curves_for.
  edestruct (rmapM_total
    (λ k, p ← precision df k; r ← recall df k; Ok (p, r))) as [prs ->].
  - intros k. unfold precision, recall, np_truediv. simpl. eauto.
  - simpl. eauto.
Qed.

Lemma user_iteration_ok pk0 rk0 (u : string) ps rs :
  curves_for df u = Ok (ps, rs) →
  user_iteration df (pk0, rk0) u = Ok (<[u := ps]> pk0, <[u := rs]> rk0).
Proof. unfold user_iteration. by intros ->. Qed.

Lemma metrics_fold_lookup (users : list string) pk0 rk0 pk rk ps rs (u : string) :
  rfoldM (user_iteration df) (pk0, rk0) users = Ok (pk, rk) →
  curves_for df u = Ok (ps, rs) →
  (u ∈ users ∨ (pk0 !! u = Some ps ∧ rk0 !! u = Some rs)) →
  pk !! u = Some ps ∧ rk !! u = Some rs.
Proof.
  intros Hfold Hc. revert pk0 rk0 Hfold.
  induction users as [|x users IH]; intros pk0 rk0 Hfold Hu;
    cbn [rfoldM] in Hfold.
  - injection Hfold as <- <-. destruct Hu as [Hu|Hu]; [|done].
    by apply elem_of_nil in Hu.
  - rewrite (user_iteration_ok pk0 rk0 x ps rs) in Hfold
      by (by rewrite (curves_for_any_user x u)).
    cbn [mbind result_bind] in Hfold.
    apply (IH _ _ Hfold).
    destruct (decide (u = x)) as [->|Hne].
    + right. by rewrite !lookup_insert_eq.
    + destruct Hu as [Hu|Hu].
      * left. apply elem_of_cons in Hu as [?|?]; done.
      * right. by rewrite !lookup_insert_ne.
Qed.

Lemma metrics_fold_ok (users : list string) pk0 rk0 :
  ∃ pk rk, rfoldM (user_iteration df) (pk0, rk0) users = Ok (pk, rk).
Proof.
  revert pk0 rk0. induction users as [|x users IH]; intros pk0 rk0;
    cbn [rfoldM]; [eauto|].
  destruct (curves_for_ok x) as (ps & rs & Hc).
  rewrite (user_iteration_ok pk0 rk0 x ps rs Hc).
  cbn [mbind result_bind]. apply IH.
Qed.

(** The cell raises nothing. *)
Lemma metrics_cell_ok (users : list string) :
  ∃ pk rk, metrics_cell users df = Ok (pk, rk).
Proof. apply metrics_fold_ok. Qed.

(** Every user of the list is given the same two curves. *)
Lemma metrics_cell_same_curves (users : list string) pk rk (u1 u2 : string) :
  metrics_cell users df = Ok (pk, rk) →
  u1 ∈ users → u2 ∈ users →
  pk !! u1 = pk !! u2 ∧ rk !! u1 = rk !! u2.
Proof.
  intros Hcell H1 H2.
  destruct (curves_for_ok u1) as (ps & rs & Hc).
  destruct (metrics_fold_lookup users ∅ ∅ pk rk ps rs u1 Hcell Hc) as [-> ->];
    [by left|].
  rewrite (curves_for_any_user u1 u2) in Hc.
  destruct (metrics_fold_lookup users ∅ ∅ pk rk ps rs u2 Hcell Hc) as [-> ->];
    [by left|done].
Qed.

End PerUserLoop.

(** C3.  The cell at a frame holding one irrelevant row of [fiveofoh]
    ranked above one relevant row of [rob]: the two users have different
    ranked lists, yet they are given one and the same pair of curves, the
    one of the whole frame.  The precision@1 stored for [rob] is 0 although
    the only row of [rob] is relevant. *)
Theorem per_user_curves_ignore_user :
  label_column (rows_of "rob" demo_df) = [1] ∧
  label_column (rows_of "fiveofoh" demo_df) = [0] ∧
  precision (rows_of "rob" demo_df) 1 = Ok (Fin (1 # 1)) ∧
  ∃ pk rk,
    metrics_cell ["rob"; "fiveofoh"] demo_df = Ok (pk, rk) ∧
    pk !! "rob" = pk !! "fiveofoh" ∧
    rk !! "rob" = rk !! "fiveofoh" ∧
    take 2 <$> pk !! "rob" = Some [Fin 0; Fin (1 # 2)] ∧
    take 2 <$> rk !! "rob" = Some [Fin 0; Fin (1 # 1)].
Proof.
  split; [reflexivity|]. split; [reflexivity|].
  split; [vm_compute; reflexivity|].
  destruct (metrics_cell_ok demo_df ["rob"; "fiveofoh"]) as (pk & rk & E).
  destruct (curves_for_ok demo_df "rob") as (ps & rs & Hc).
  assert (Hrob : ("rob" : string) ∈ ["rob"; "fiveofoh"]) by apply list_elem_of_here.
  assert (Hfive : ("fiveofoh" : string) ∈ ["rob"; "fiveofoh"])
    by apply list_elem_of_further, list_elem_of_here.
  destruct (metrics_fold_lookup demo_df _ ∅ ∅ pk rk ps rs "rob" E Hc)
    as [Hp Hr]; [by left|].
  destruct (metrics_fold_lookup demo_df _ ∅ ∅ pk rk ps rs "fiveofoh" E Hc)
    as [Hp' Hr']; [by left|].
  exists pk, rk. split; [exact E|].
  rewrite Hp, Hr, Hp', Hr'. split; [reflexivity|]. split; [reflexivity|].
  assert (H : ('(ps, rs) ← curves_for demo_df "rob"; Ok (take 2 ps, take 2 rs))
              = Ok ([Fin 0; Fin (1 # 2)], [Fin 0; Fin (1 # 1)]))
    by (vm_compute; reflexivity).
  rewrite Hc in H. cbn [mbind result_bind] in H.
  injection H as H1 H2.
  split; [exact (f_equal Some H1) | exact (f_equal Some H2)].
Qed.

(** ** Running [calculate_ap] on the store *)

Section CalculateAp.

Lemma bind_ok {A B} (m : Py A) (f : A → Py B) (σ σ' : store) (a : A) :
  m σ = Ok (a, σ') → (m ≫= f) σ = f a σ'.
Proof. unfold mbind, Py_bind. by intros ->. Qed.

Lemma bind_raise {A B} (m : Py A) (f : A → Py B) (σ : store) (e : exn) :
  m σ = Raise e → (m ≫= f) σ = Raise e.
Proof. unfold mbind, Py_bind. by intros ->. Qed.

Lemma list_read_ok (σ : store) (r : loc) xs :
  σ !! r = Some xs → list_read r σ = Ok (xs, σ).
Proof. unfold list_read. by intros ->. Qed.

Lemma list_getitem_ok (σ : store) (r : loc) xs (i : Z) v :
  σ !! r = Some xs → getitem xs i = Ok v → list_getitem r i σ = Ok (v, σ).
Proof.
  intros Hr Hi. unfold list_getitem.
  rewrite (bind_ok _ _ σ σ xs) by by apply list_read_ok.
  unfold lift. by rewrite Hi.
Qed.

Lemma list_getitem_raise (σ : store) (r : loc) xs (i : Z) e :
  σ !! r = Some xs → getitem xs i = Raise e → list_getitem r i σ = Raise e.
Proof.
  intros Hr Hi. unfold list_getitem.
  rewrite (bind_ok _ _ σ σ xs) by by apply list_read_ok.
  unfold lift. by rewrite Hi.
Qed.

Lemma list_append_ok (σ : store) (r : loc) xs x :
  σ !! r = Some xs → list_append r x σ = Ok (tt, <[r := xs ++ [x]]> σ).
Proof.
  intros Hr. unfold list_append.
  by rewrite (bind_ok _ _ σ σ xs) by by apply list_read_ok.
Qed.

Lemma getitem_nat {A} (xs : list A) (i : nat) (v : A) :
  xs !! i = Some v → getitem xs (Z.of_nat i) = Ok v.
Proof.
  intros Hv. unfold getitem.
  assert (E : (Z.of_nat i <? 0) = false) by (apply Z.ltb_ge; lia).
  cbv zeta. rewrite E. cbv iota. rewrite E.
  by rewrite Nat2Z.id, Hv.
Qed.

Lemma getitem_last {A} (pre : list A) (v : A) : getitem (pre ++ [v]) (-1) = Ok v.
Proof.
  unfold getitem. rewrite length_app. simpl length.
  replace (-1 <? 0) with true by done.
  replace (-1 + Z.of_nat (length pre + 1)) with (Z.of_nat (length pre)) by lia.
  rewrite (proj2 (Z.ltb_ge _ 0)) by lia.
  rewrite Nat2Z.id.
  by rewrite lookup_app_r, Nat.sub_diag by lia.
Qed.

(** The loop [for p in rest: ap.append(ap[-1] + p)]. *)
Lemma append_loop (ap : loc) (ps pre : list float64) (v : float64) (σ : store) :
  σ !! ap = Some (pre ++ [v]) →
  for_each (λ p, last ← list_getitem ap (-1); list_append ap (fadd last p))
           ps σ
  = Ok (tt, <[ap := pre ++ v :: running_sums v ps]> σ).
Proof.
  revert pre v σ. induction ps as [|p ps IH]; intros pre v σ Hap.
  - simpl. unfold mret, Py_ret. by rewrite insert_id.
  - cbn [for_each running_sums].
    erewrite bind_ok; last first.
    { erewrite bind_ok; [|by eapply list_getitem_ok, getitem_last].
      by apply list_append_ok. }
    rewrite (IH (pre ++ [v]) (fadd v p)) by by rewrite lookup_insert_eq.
    by rewrite insert_insert_eq, <- !app_assoc.
Qed.

Lemma fresh_lookup (σ : store) : σ !! fresh (dom σ) = None.
Proof. apply not_elem_of_dom, is_fresh. Qed.

Lemma fresh_ne (σ : store) (l : loc) xs : σ !! l = Some xs → fresh (dom σ) ≠ l.
Proof. intros Hl E. rewrite <- E, fresh_lookup in Hl. done. Qed.

Lemma list_slice_from_ok (σ : store) (r : loc) x t :
  σ !! r = Some (x :: t) →
  list_slice_from r 1 σ = Ok (fresh (dom σ), <[fresh (dom σ) := t]> σ).
Proof.
  intros Hr. unfold list_slice_from.
  by rewrite (bind_ok _ _ σ σ (x :: t)) by by apply list_read_ok.
Qed.

(** What a call does to the store when the argument holds [x :: t]: three
    objects are allocated, the accumulator [a], the slice [s] and the
    returned list [r]; nothing else is written. *)
Lemma calculate_ap_run (σ : store) (p : loc) x t :
  σ !! p = Some (x :: t) →
  let a := fresh (dom σ) in
  let σ1 := <[a := [x]]> σ in
  let s := fresh (dom σ1) in
  let σ3 := <[a := x :: running_sums x t]> (<[s := t]> σ1) in
  let r := fresh (dom σ3) in
  calculate_ap p σ = Ok (r, <[r := averaged (x :: running_sums x t)]> σ3).
Proof.
  intros Hp a σ1 s σ3 r. unfold calculate_ap.
  assert (Hap : a ≠ p) by by eapply fresh_ne.
  assert (Hp1 : σ1 !! p = Some (x :: t)) by by unfold σ1; rewrite lookup_insert_ne.
  assert (Hsa : s ≠ a) by (eapply fresh_ne; unfold σ1; by rewrite lookup_insert_eq).
  rewrite (bind_ok _ _ σ σ x) by by eapply list_getitem_ok.
  rewrite (bind_ok _ _ σ σ1 a) by done.
  rewrite (bind_ok _ _ σ1 (<[s := t]> σ1) s) by by eapply list_slice_from_ok.
  rewrite (bind_ok _ _ (<[s := t]> σ1) σ3 tt); last first.
  { unfold for_list.
    rewrite (bind_ok _ _ _ (<[s := t]> σ1) t)
      by by apply list_read_ok, lookup_insert_eq.
    apply (append_loop a t [] x).
    rewrite lookup_insert_ne by done. unfold σ1. by rewrite lookup_insert_eq. }
  assert (Ha3 : σ3 !! a = Some (x :: running_sums x t))
    by by unfold σ3; rewrite lookup_insert_eq.
  rewrite (bind_ok _ _ σ3 σ3 (Z.of_nat (length (x :: running_sums x t))));
    last first.
  { unfold list_len. by rewrite (bind_ok _ _ σ3 σ3 _ (list_read_ok _ _ _ Ha3)). }
  by rewrite (bind_ok _ _ σ3 σ3 _ (list_read_ok _ _ _ Ha3)).
Qed.

(** The same, without the allocation details. *)
Lemma calculate_ap_spec (σ : store) (p : loc) x t :
  σ !! p = Some (x :: t) →
  ∃ (r : loc) (σ' : store),
    calculate_ap p σ = Ok (r, σ') ∧
    σ !! r = None ∧
    σ' !! r = Some (averaged (x :: running_sums x t)) ∧
    ∀ l, is_Some (σ !! l) → σ' !! l = σ !! l.
Proof.
  intros Hp. pose proof (calculate_ap_run σ p x t Hp) as Hrun.
  cbv zeta in Hrun.
  set (a := fresh (dom σ)) in *.
  set (σ1 := <[a := [x]]> σ) in *.
  set (s := fresh (dom σ1)) in *.
  set (σ3 := <[a := x :: running_sums x t]> (<[s := t]> σ1)) in *.
  set (r := fresh (dom σ3)) in *.
  assert (Hfr : ∀ l, is_Some (σ !! l) → σ3 !! l = σ !! l ∧ r ≠ l).
  { intros l [v Hl].
    assert (a ≠ l) by by eapply fresh_ne.
    assert (H1 : σ1 !! l = Some v) by by unfold σ1; rewrite lookup_insert_ne.
    assert (s ≠ l) by by eapply fresh_ne.
    assert (H3 : σ3 !! l = Some v)
      by by unfold σ3; rewrite !lookup_insert_ne.
    split; [by rewrite H3|]. by eapply fresh_ne. }
  exists r, (<[r := averaged (x :: running_sums x t)]> σ3).
  split; [done|]. split; [|split].
  - destruct (σ !! r) eqn:E; [|done].
    destruct (Hfr r) as [_ Hne]; [by eexists|done].
  - by rewrite lookup_insert_eq.
  - intros l Hl. destruct (Hfr l Hl) as [H3 Hne].
    by rewrite lookup_insert_ne.
Qed.

Lemma calculate_ap_empty (σ : store) (p : loc) :
  σ !! p = Some [] → calculate_ap p σ = Raise IndexError.
Proof.
  intros Hp. unfold calculate_ap.
  apply bind_raise. by eapply list_getitem_raise.
Qed.

End CalculateAp.

(** ** The running mean *)

Section RunningMean.

Lemma length_running_sums (v : float64) (t : list float64) :
  length (running_sums v t) = length t.
Proof. revert v. induction t as [|p t IH]; intros v; simpl; [done|]. by rewrite IH. Qed.

Lemma length_averaged (xs : list float64) : length (averaged xs) = length xs.
Proof.
  unfold averaged, range.
  rewrite length_fmap, length_zip, length_seqZ. lia.
Qed.

Lemma lookup_averaged (xs : list float64) (i : nat) (v : float64) :
  xs !! i = Some v →
  averaged xs !! i = Some (fdiv v (of_Z (Z.of_nat i + 1))).
Proof.
  intros Hi. unfold averaged, range.
  rewrite list_lookup_fmap.
  assert (Hz : zip xs (seqZ 0 (Z.of_nat (length xs) - 0)) !! i
               = Some (v, Z.of_nat i)).
  { apply lookup_zip_Some. split; [done|].
    apply lookup_seqZ. apply lookup_lt_Some in Hi. lia. }
  by rewrite Hz.
Qed.

Lemma lookup_running_sums (x : float64) (t : list float64) (i : nat) :
  (i ≤ length t)%nat →
  (x :: running_sums x t) !! i = Some (fold_left fadd (take i t) x).
Proof.
  revert x i. induction t as [|p t IH]; intros x i Hi.
  - simpl in Hi. by replace i with 0%nat by lia.
  - destruct i as [|i]; [done|].
    simpl in Hi. cbn [running_sums take fold_left lookup list_lookup].
    apply (IH (fadd x p) i). lia.
Qed.

End RunningMean.

(** C9.  On a list object holding the empty sequence the first statement,
    [precision[0]], raises [IndexError] and nothing is returned; the call
    returns exactly when the sequence is not empty. *)
Theorem calculate_ap_needs_nonempty (σ : store) (p : loc) (ps : list float64) :
  σ !! p = Some ps →
  (ps = [] → list_getitem p 0 σ = Raise IndexError ∧
             calculate_ap p σ = Raise IndexError) ∧
  ((∃ r σ', calculate_ap p σ = Ok (r, σ')) ↔ ps ≠ []).
Proof.
  intros Hp. split.
  - intros ->. split; [by eapply list_getitem_raise|by apply calculate_ap_empty].
  - split.
    + intros (r & σ' & Hrun) ->.
      rewrite calculate_ap_empty in Hrun by done. discriminate.
    + intros Hne. destruct ps as [|x t]; [done|].
      destruct (calculate_ap_spec σ p x t Hp) as (r & σ' & Hrun & _).
      eauto.
Qed.

Lemma calculate_ap_needs_nonempty_witness :
  (([] : list float64) = [] →
     list_getitem 5%positive 0 empty_store = Raise IndexError ∧
             calculate_ap 5%positive empty_store = Raise IndexError) ∧
  ((∃ r σ', calculate_ap 5%positive empty_store = Ok (r, σ'))
   ↔ ([] : list float64) ≠ []).
Proof.
  apply (calculate_ap_needs_nonempty empty_store 5%positive []).
  vm_compute. reflexivity.
Defined.

(** C10, as stated, fails on the empty sequence: nothing is returned. *)
Lemma calculate_ap_returns_counterexample :
  empty_store !! 5%positive = Some [] ∧
  calculate_ap 5%positive empty_store = Raise IndexError ∧
  ¬ (∀ (σ : store) (p : loc) (ps : list float64),
       σ !! p = Some ps →
       ∃ r σ' out, calculate_ap p σ = Ok (r, σ') ∧ σ' !! r = Some out ∧
                   length out = length ps).
Proof.
  split; [by vm_compute|]. split; [by vm_compute|].
  intros H. destruct (H empty_store 5%positive []) as (r & σ' & out & Hrun & _);
    [by vm_compute|].
  vm_compute in Hrun. discriminate.
Qed.

(** C10, amended.  For a list object holding a non-empty sequence [ps], the
    call returns a list object that did not exist before, of the same
    length as [ps]; the argument still holds [ps], and every object that
    existed before the call is unchanged. *)
Theorem calculate_ap_fresh_result (σ : store) (p : loc) (ps : list float64) :
  σ !! p = Some ps → ps ≠ [] →
  ∃ (r : loc) (σ' : store) (out : list float64),
    calculate_ap p σ = Ok (r, σ') ∧
    σ !! r = None ∧
    σ' !! r = Some out ∧
    length out = length ps ∧
    σ' !! p = Some ps ∧
    ∀ l, is_Some (σ !! l) → σ' !! l = σ !! l.
Proof.
  intros Hp Hne. destruct ps as [|x t]; [done|].
  destruct (calculate_ap_spec σ p x t Hp) as (r & σ' & Hrun & Hfresh & Hout & Hframe).
  eexists r, σ', _. split; [done|]. split; [done|]. split; [exact Hout|].
  split; [|split; [|done]].
  - rewrite length_averaged. simpl. by rewrite length_running_sums.
  - rewrite Hframe by by eexists. done.
Qed.

Lemma calculate_ap_fresh_result_witness :
  ∃ (r : loc) (σ' : store) (out : list float64),
    calculate_ap 5%positive demo_store = Ok (r, σ') ∧
    demo_store !! r = None ∧
    σ' !! r = Some out ∧
    length out = length [Fin 1; Fin (1 # 2); Fin (667 # 1000)] ∧
    σ' !! 5%positive = Some [Fin 1; Fin (1 # 2); Fin (667 # 1000)] ∧
    ∀ l, is_Some (demo_store !! l) → σ' !! l = demo_store !! l.
Proof.
  apply (calculate_ap_fresh_result demo_store 5%positive).
  - vm_compute. reflexivity.
  - discriminate.
Defined.

(** ** Mean average precision *)

Section MeanAveragePrecision.

Variable ap_at_k : gmap string (list float64).

Lemma map_at_nil (k : Z) : map_at ap_at_k [] k = Raise ZeroDivisionError.
Proof. reflexivity. Qed.

End MeanAveragePrecision.

(** ** Worked scenarios *)

Section Scenarios.

(** Labels [1, 0, 1, 0]: precision 1, 1/2, 2/3, 1/2 and recall 1/2, 1/2,
    1, 1 at the cut-offs 1 to 4. *)
Example scenario_precision :
  Forall2 req (precision scenario_df <$> [1; 2; 3; 4])
              [Ok (Fin 1); Ok (Fin (1 # 2)); Ok (Fin (2 # 3)); Ok (Fin (1 # 2))].
Proof. vm_compute. repeat constructor. Qed.

Example scenario_recall :
  Forall2 req (recall scenario_df <$> [1; 2; 3; 4])
              [Ok (Fin (1 # 2)); Ok (Fin (1 # 2)); Ok (Fin 1); Ok (Fin 1)].
Proof. vm_compute. repeat constructor. Qed.

Example scenario_last_relevant : last_relevant (label_column scenario_df) = 3%nat.
Proof. reflexivity. Qed.

(** Without users the mean divides the integer 0 by 0. *)
Example scenario_map_no_users :
  map_at demo_ap [] 2 = Raise ZeroDivisionError.
Proof. reflexivity. Qed.

(** A user without a curve, and a curve that is too short. *)
Example scenario_map_missing_user :
  map_at demo_ap ["rob"; "Aerion"] 2 = Raise KeyError.
Proof. vm_compute. reflexivity. Qed.

Example scenario_map_short_curve :
  map_at demo_ap ["rob"; "fiveofoh"] 3 = Raise IndexError.
Proof. vm_compute. reflexivity. Qed.

End Scenarios.

(** ** Further properties of the precision/recall cell *)

Section CutOffs.

Lemma inject_Z_nonzero (b : Z) : b ≠ 0 → ¬ (inject_Z b == 0)%Q.
Proof. intros Hb E. apply Hb. unfold Qeq in E. simpl in E. lia. Qed.

Lemma fdiv_of_Z_nonzero (a b : Z) :
  b ≠ 0 → fdiv (of_Z a) (of_Z b) = Fin (inject_Z a / inject_Z b).
Proof.
  intros Hb. unfold of_Z, fdiv. rewrite Qsign_inject_Z.
  destruct (Z.compare_spec 0 b); [lia|done..].
Qed.

Lemma series_sum_nil : series_sum [] = 0.
Proof. reflexivity. Qed.

Lemma slice_to_nil {A} (k : Z) : slice_to k ([] : list A) = [].
Proof. unfold slice_to. case_match; apply take_nil. Qed.

Lemma label_column_length (df : list Row) : length (label_column df) = length df.
Proof. unfold label_column. apply length_fmap. Qed.

End CutOffs.

(** Recall@k lies in [0, 1] for every integer [k], also beyond the end of
    the frame and for negative [k], when the labels are 0/1 and at least
    one row is relevant. *)
Theorem recall_in_unit_interval (df : list Row) (k : Z) :
  binary (label_column df) →
  Z.of_nat (length df) < 2 ^ 63 →
  0 < series_sum (label_column df) →
  ∃ r : Q, recall df k = Ok (Fin r) ∧ (0 <= r <= 1)%Q.
Proof.
  intros Hb Hlen Htot. unfold recall, np_truediv.
  destruct (slice_to_prefix k (label_column df)) as [n ->].
  rewrite (series_sum_binary (take n _)); [|by apply binary_take|].
  - rewrite total_sum in * by done.
    rewrite fdiv_of_Z_pos by done.
    eexists. split; [done|].
    apply Qdiv_inject_Z_bounds; [|done].
    pose proof (relevant_count_take_le (label_column df) n). lia.
  - rewrite length_take, label_column_length. lia.
Qed.

Lemma recall_in_unit_interval_witness :
  ∃ r : Q, recall scenario_df (-1) = Ok (Fin r) ∧ (0 <= r <= 1)%Q.
Proof.
  apply (recall_in_unit_interval scenario_df (-1)).
  - binary_labels.
  - vm_compute. reflexivity.
  - vm_compute. reflexivity.
Defined.

(** From the end of the frame on, recall@k is exactly 1 whatever the
    integer labels are, as long as their total is not zero: the truncated
    slice is the whole column. *)
Theorem recall_saturates_past_end (df : list Row) (k : Z) :
  Z.of_nat (length df) ≤ k →
  series_sum (label_column df) ≠ 0 →
  ∃ r : Q, recall df k = Ok (Fin r) ∧ (r == 1)%Q.
Proof.
  intros Hk Htot. unfold recall, np_truediv.
  rewrite slice_to_beyond by (rewrite label_column_length; lia).
  rewrite fdiv_of_Z_nonzero by done.
  eexists. split; [done|].
  apply Qmult_inv_r. by apply inject_Z_nonzero.
Qed.

Lemma recall_saturates_past_end_witness :
  ∃ r : Q, recall demo_df 7 = Ok (Fin r) ∧ (r == 1)%Q.
Proof.
  apply (recall_saturates_past_end demo_df 7).
  - simpl. lia.
  - vm_compute. discriminate.
Defined.

(** On a frame without rows nothing is raised: recall@k is [nan] and, for
    [k <> 0], precision@k is 0. *)
Theorem empty_frame_metrics (k : Z) :
  k ≠ 0 →
  recall [] k = Ok NaN ∧
  ∃ p : Q, precision [] k = Ok (Fin p) ∧ (p == 0)%Q.
Proof.
  intros Hk. unfold precision, recall, np_truediv, label_column.
  cbn [fmap list_fmap]. rewrite slice_to_nil, series_sum_nil. split.
  - by rewrite fdiv_of_Z_zero.
  - rewrite fdiv_of_Z_nonzero by done. eexists. split; [done|].
    unfold Qdiv. apply Qmult_0_l.
Qed.

Lemma empty_frame_metrics_witness :
  recall [] 1 = Ok NaN ∧
  ∃ p : Q, precision [] 1 = Ok (Fin p) ∧ (p == 0)%Q.
Proof. apply (empty_frame_metrics 1). lia. Defined.

(** ** Shape of the two dictionaries *)

Section CellShape.

Variable df : list Row.

Lemma rmapM_Forall2 {A B} (f : A → result B) (l : list A) (ys : list B) :
  rmapM f l = Ok ys → Forall2 (λ x y, f x = Ok y) l ys.
Proof.
  revert ys. induction l as [|x l IH]; intros ys H; cbn [rmapM] in H.
  - injection H as <-. constructor.
  - destruct (f x) as [y|e] eqn:Hx; [|discriminate].
    cbn [mbind result_bind] in H.
    destruct (rmapM f l) as [ys'|e] eqn:Hl; [|discriminate].
    cbn [mbind result_bind] in H. injection H as <-.
    constructor; [done|by apply IH].
Qed.

Lemma range_length (a b : Z) : length (range a b) = Z.to_nat (b - a).
Proof. unfold range. apply length_seqZ. Qed.

Lemma range_lookup (a b : Z) (i : nat) :
  Z.of_nat i < b - a → range a b !! i = Some (a + Z.of_nat i).
Proof. unfold range. apply lookup_seqZ_lt. Qed.

(** Entry [i] of either list is the metric at cut-off [i + 1]. *)
Lemma curves_for_entries (u : string) ps rs :
  curves_for df u = Ok (ps, rs) →
  length ps = 999%nat ∧ length rs = 999%nat ∧
  ∀ i, (i < 999)%nat →
    ∃ p r, ps !! i = Some p ∧ rs !! i = Some r ∧
           precision df (Z.of_nat i + 1) = Ok p ∧
           recall df (Z.of_nat i + 1) = Ok r.
Proof.
  unfold curves_for. intros H.
  destruct (rmapM _ (range 1 1000)) as [prs|e] eqn:Hm; [|discriminate].
  cbn [mbind result_bind] in H. injection H as <- <-.
  apply rmapM_Forall2 in Hm.
  pose proof (Forall2_length _ _ _ Hm) as Hlen.
  rewrite range_length in Hlen.
  rewrite !length_fmap. split; [lia|]. split; [lia|].
  intros i Hi.
  destruct (Forall2_lookup_l _ _ _ i (1 + Z.of_nat i) Hm) as ([p r] & Hpr & Hf).
  { apply range_lookup. lia. }
  exists p, r. rewrite !list_lookup_fmap, Hpr.
  split; [done|]. split; [done|].
  replace (Z.of_nat i + 1) with (1 + Z.of_nat i) by lia.
  destruct (precision df (1 + Z.of_nat i)) as [p'|]; [|discriminate].
  destruct (recall df (1 + Z.of_nat i)) as [r'|]; [|discriminate].
  cbn [mbind result_bind] in Hf. by injection Hf as -> ->.
Qed.

Lemma metrics_fold_dom (users : list string) pk0 rk0 pk rk :
  rfoldM (user_iteration df) (pk0, rk0) users = Ok (pk, rk) →
  dom pk = list_to_set users ∪ dom pk0 ∧ dom rk = list_to_set users ∪ dom rk0.
Proof.
  revert pk0 rk0. induction users as [|x users IH]; intros pk0 rk0 H;
    cbn [rfoldM] in H.
  - injection H as <- <-. cbn [list_to_set foldr]. by rewrite !(left_id_L ∅ (∪)).
  - destruct (curves_for_ok df x) as (ps & rs & Hc).
    rewrite (user_iteration_ok df pk0 rk0 x ps rs Hc) in H.
    cbn [mbind result_bind] in H.
    destruct (IH _ _ H) as [-> ->]. rewrite !dom_insert_L, list_to_set_cons.
    by rewrite !(assoc_L (∪)), !(comm_L (∪) (list_to_set users) {[x]}).
Qed.

(** Keys and values of the first dictionary after the cell. *)
Lemma metrics_cell_lookup (users : list string) pk rk :
  metrics_cell users df = Ok (pk, rk) →
  dom pk = list_to_set users ∧ dom rk = list_to_set users ∧
  ∀ u, u ∈ users →
    ∃ ps rs, curves_for df u = Ok (ps, rs) ∧
             pk !! u = Some ps ∧ rk !! u = Some rs.
Proof.
  intros Hcell.
  destruct (metrics_fold_dom users ∅ ∅ pk rk Hcell) as [Hdp Hdr].
  rewrite dom_empty_L, (right_id_L ∅ (∪)) in Hdp, Hdr.
  split; [done|]. split; [done|]. intros u Hu.
  destruct (curves_for_ok df u) as (ps & rs & Hc).
  destruct (metrics_fold_lookup df users ∅ ∅ pk rk ps rs u Hcell Hc)
    as [Hp Hr]; [by left|].
  by exists ps, rs.
Qed.

End CellShape.

(** The loop never raises.  Its two dictionaries have exactly the listed
    users as keys, and under every key a list of 999 entries whose entry
    [i] is the metric at cut-off [i + 1], whatever the number of rows of
    the frame.  The cell as a whole raises [IndexError] when the user list
    is empty, at [users[0]] in the arguments of the plot call; otherwise
    nothing is raised up to the calls of the plotting library. *)
Theorem precision_recall_cell_outcome (users : list string) (df : list Row) :
  ∃ pk rk,
    metrics_cell users df = Ok (pk, rk) ∧
    precision_recall_cell users df
    = match users with
      | [] => Raise IndexError
      | _ :: _ => Ok (pk, rk)
      end ∧
    dom pk = list_to_set users ∧
    dom rk = list_to_set users ∧
    ∀ u, u ∈ users →
      ∃ ps rs,
        pk !! u = Some ps ∧ rk !! u = Some rs ∧
        length ps = 999%nat ∧ length rs = 999%nat ∧
        ∀ i, (i < 999)%nat →
          ∃ p r, ps !! i = Some p ∧ rs !! i = Some r ∧
                 precision df (Z.of_nat i + 1) = Ok p ∧
                 recall df (Z.of_nat i + 1) = Ok r.
Proof.
  destruct (metrics_cell_ok df users) as (pk & rk & Hcell).
  destruct (metrics_cell_lookup df users pk rk Hcell) as (Hdp & Hdr & Hall).
  exists pk, rk. split; [done|]. split.
  { unfold precision_recall_cell. rewrite Hcell. cbn [mbind result_bind].
    destruct users as [|u users]; [done|].
    destruct (Hall u) as (ps & rs & _ & Hp & Hr); [by left|].
    change (getitem (u :: users) 0) with (Ok u : result string).
    cbn [mbind result_bind]. unfold dict_getitem. by rewrite Hr, Hp. }
  split; [done|]. split; [done|].
  intros u Hu. destruct (Hall u Hu) as (ps & rs & Hc & Hp & Hr).
  exists ps, rs. split; [done|]. split; [done|].
  by apply (curves_for_entries df u).
Qed.

(** ** Calls of [calculate_ap] *)

Section Calls.

Lemma calculate_ap_contents (σ : store) (p : loc) (ps : list float64) :
  σ !! p = Some ps → ps ≠ [] →
  ∃ (r : loc) (σ' : store),
    calculate_ap p σ = Ok (r, σ') ∧
    σ !! r = None ∧
    σ' !! r = Some (ap_values ps) ∧
    ∀ l, is_Some (σ !! l) → σ' !! l = σ !! l.
Proof.
  intros Hp Hne. destruct ps as [|x t]; [done|].
  apply (calculate_ap_spec σ p x t Hp).
Qed.

Lemma run_calculate_ap_nil : run_calculate_ap [] = Raise IndexError.
Proof.
  unfold run_calculate_ap.
  rewrite (calculate_ap_empty {[1%positive := []]} 1%positive); [done|].
  apply lookup_singleton_eq.
Qed.

Lemma run_calculate_ap_ok (ps : list float64) :
  ps ≠ [] → run_calculate_ap ps = Ok (ap_values ps).
Proof.
  intros Hne. unfold run_calculate_ap.
  destruct (calculate_ap_contents {[1%positive := ps]} 1%positive ps)
    as (r & σ' & -> & _ & -> & _); [apply lookup_singleton_eq|done|done].
Qed.

Lemma length_ap_values (ps : list float64) : length (ap_values ps) = length ps.
Proof.
  destruct ps as [|x t]; [done|]. unfold ap_values.
  rewrite length_averaged. simpl. by rewrite length_running_sums.
Qed.

End Calls.

(** What a call returns depends only on the contents of its argument: in
    any two stores, and for any two list objects with equal contents, both
    calls raise [IndexError] (empty contents) or both return lists with
    equal contents, the ones that [run_calculate_ap] computes. *)
Theorem run_calculate_ap_any_store (σ1 σ2 : store) (p1 p2 : loc)
    (ps : list float64) :
  σ1 !! p1 = Some ps →
  σ2 !! p2 = Some ps →
  match run_calculate_ap ps with
  | Ok out =>
      ∃ r1 σ1' r2 σ2',
        calculate_ap p1 σ1 = Ok (r1, σ1') ∧ σ1' !! r1 = Some out ∧
        calculate_ap p2 σ2 = Ok (r2, σ2') ∧ σ2' !! r2 = Some out
  | Raise e =>
      e = IndexError ∧
      calculate_ap p1 σ1 = Raise e ∧ calculate_ap p2 σ2 = Raise e
  end.
Proof.
  intros H1 H2. destruct (decide (ps = [])) as [->|Hne].
  - rewrite run_calculate_ap_nil.
    split; [done|]. split; by apply calculate_ap_empty.
  - rewrite run_calculate_ap_ok by done.
    destruct (calculate_ap_contents σ1 p1 ps H1 Hne) as (r1 & σ1' & Hr1 & _ & Ho1 & _).
    destruct (calculate_ap_contents σ2 p2 ps H2 Hne) as (r2 & σ2' & Hr2 & _ & Ho2 & _).
    by exists r1, σ1', r2, σ2'.
Qed.

Lemma run_calculate_ap_any_store_witness :
  match run_calculate_ap [Fin 1; Fin (1 # 2); Fin (667 # 1000)] with
  | Ok out =>
      ∃ r1 σ1' r2 σ2',
        calculate_ap 5%positive demo_store = Ok (r1, σ1') ∧
        σ1' !! r1 = Some out ∧
        calculate_ap 5%positive demo_store = Ok (r2, σ2') ∧
        σ2' !! r2 = Some out
  | Raise e =>
      e = IndexError ∧
      calculate_ap 5%positive demo_store = Raise e ∧
      calculate_ap 5%positive demo_store = Raise e
  end.
Proof.
  apply (run_calculate_ap_any_store demo_store demo_store 5%positive 5%positive).
  - vm_compute. reflexivity.
  - vm_compute. reflexivity.
Defined.

(** Two calls on the same argument do not share their results: the second
    call returns another object with the same contents, and it leaves both
    the first result and the argument as they were. *)
Theorem calculate_ap_twice (σ : store) (p : loc) (ps : list float64) :
  σ !! p = Some ps → ps ≠ [] →
  ∃ (r1 r2 : loc) (σ1 σ2 : store) (out : list float64),
    calculate_ap p σ = Ok (r1, σ1) ∧
    calculate_ap p σ1 = Ok (r2, σ2) ∧
    r1 ≠ r2 ∧ r1 ≠ p ∧ r2 ≠ p ∧
    σ2 !! r1 = Some out ∧ σ2 !! r2 = Some out ∧
    length out = length ps ∧
    σ2 !! p = Some ps.
Proof.
  intros Hp Hne.
  destruct (calculate_ap_contents σ p ps Hp Hne)
    as (r1 & σ1 & Hrun1 & Hf1 & Ho1 & Hfr1).
  assert (Hp1 : σ1 !! p = Some ps) by (rewrite Hfr1; [done|by eexists]).
  destruct (calculate_ap_contents σ1 p ps Hp1 Hne)
    as (r2 & σ2 & Hrun2 & Hf2 & Ho2 & Hfr2).
  exists r1, r2, σ1, σ2, (ap_values ps).
  split; [done|]. split; [done|].
  split; [intros ->; by rewrite Ho1 in Hf2|].
  split; [intros ->; by rewrite Hp in Hf1|].
  split; [intros ->; by rewrite Hp1 in Hf2|].
  split; [rewrite Hfr2; [done|by eexists]|].
  split; [done|]. split; [apply length_ap_values|].
  rewrite Hfr2; [done|by eexists].
Qed.

Lemma calculate_ap_twice_witness :
  ∃ (r1 r2 : loc) (σ1 σ2 : store) (out : list float64),
    calculate_ap 5%positive demo_store = Ok (r1, σ1) ∧
    calculate_ap 5%positive σ1 = Ok (r2, σ2) ∧
    r1 ≠ r2 ∧ r1 ≠ 5%positive ∧ r2 ≠ 5%positive ∧
    σ2 !! r1 = Some out ∧ σ2 !! r2 = Some out ∧
    length out = length [Fin 1; Fin (1 # 2); Fin (667 # 1000)] ∧
    σ2 !! 5%positive = Some [Fin 1; Fin (1 # 2); Fin (667 # 1000)].
Proof.
  apply (calculate_ap_twice demo_store 5%positive).
  - vm_compute. reflexivity.
  - discriminate.
Defined.

(** ** A [nan] in the running mean *)

Section NanInSums.

Lemma fold_left_fadd_nan (l : list float64) : fold_left fadd l NaN = NaN.
Proof. induction l as [|y l IH]; [done|]. simpl. destruct y; apply IH. Qed.

Lemma fold_left_fadd_has_nan (l : list float64) (a : float64) :
  NaN ∈ a :: l → fold_left fadd l a = NaN.
Proof.
  revert a. induction l as [|y l IH]; intros a Hin.
  - apply list_elem_of_singleton in Hin as <-. done.
  - cbn [fold_left]. apply elem_of_cons in Hin as [<-|Hin].
    + simpl. destruct y; apply fold_left_fadd_nan.
    + apply IH. apply elem_of_cons in Hin as [<-|Hin].
      * replace (fadd a NaN) with NaN by (by destruct a). by left.
      * by right.
Qed.

End NanInSums.

(** A [nan] among the precisions poisons the rest of the curve: every
    entry of the result from the rank of the [nan] on is [nan]. *)
Theorem calculate_ap_nan_propagates (σ : store) (p : loc) (ps : list float64)
    (i : nat) :
  σ !! p = Some ps →
  ps !! i = Some NaN →
  ∃ (r : loc) (σ' : store) (out : list float64),
    calculate_ap p σ = Ok (r, σ') ∧
    σ' !! r = Some out ∧
    ∀ j, (i ≤ j < length ps)%nat → out !! j = Some NaN.
Proof.
  intros Hp Hi. destruct ps as [|x t]; [done|].
  destruct (calculate_ap_spec σ p x t Hp) as (r & σ' & Hrun & _ & Hout & _).
  exists r, σ', (averaged (x :: running_sums x t)).
  split; [done|]. split; [done|].
  intros j [Hij Hj]. simpl in Hj.
  rewrite (lookup_averaged _ j (fold_left fadd (take j t) x))
    by (apply lookup_running_sums; lia).
  rewrite fold_left_fadd_has_nan; [done|].
  change (x :: take j t) with (take (S j) (x :: t)).
  apply list_elem_of_lookup. exists i.
  rewrite lookup_take_lt by lia. done.
Qed.

Lemma calculate_ap_nan_propagates_witness :
  ∃ (r : loc) (σ' : store) (out : list float64),
    calculate_ap 5%positive {[ 5%positive := [Fin 1; NaN; Fin 1] ]} = Ok (r, σ') ∧
    σ' !! r = Some out ∧
    ∀ j, (1 ≤ j < length [Fin 1; NaN; Fin 1])%nat → out !! j = Some NaN.
Proof.
  apply (calculate_ap_nan_propagates {[ 5%positive := [Fin 1; NaN; Fin 1] ]}
           5%positive [Fin 1; NaN; Fin 1] 1).
  - vm_compute. reflexivity.
  - reflexivity.
Defined.

(** ** The AP dictionary *)

Section ApDictionary.

Lemma ap_step_ok acc (item : string * list float64) :
  item.2 ≠ [] → ap_step acc item = Ok (<[item.1 := ap_values item.2]> acc).
Proof. intros Hne. unfold ap_step. by rewrite run_calculate_ap_ok. Qed.

Lemma ap_step_nil acc (item : string * list float64) :
  item.2 = [] → ap_step acc item = Raise IndexError.
Proof. intros E. unfold ap_step. by rewrite E, run_calculate_ap_nil. Qed.

(** With distinct keys and no empty list, the fold adds the running means
    of every item to the dictionary it starts from. *)
Lemma ap_fold_ok (items : list (string * list float64)) acc :
  Forall (λ item, item.2 ≠ []) items →
  NoDup items.*1 →
  ∃ ap, rfoldM ap_step acc items = Ok ap ∧
    ∀ u, ap !! u =
      match (list_to_map items : gmap string (list float64)) !! u with
      | Some ps => Some (ap_values ps)
      | None => acc !! u
      end.
Proof.
  intros H. revert acc.
  induction H as [|[v ps] items Hne _ IH]; intros acc Hnd.
  - exists acc. split; [done|]. intros u.
    cbn [list_to_map foldr]. by rewrite lookup_empty.
  - cbn [fmap list_fmap fst] in Hnd. apply NoDup_cons in Hnd as [Hv Hnd].
    cbn [rfoldM]. rewrite ap_step_ok by done. cbn [mbind result_bind fst snd].
    destruct (IH (<[v := ap_values ps]> acc) Hnd) as (ap & -> & Hap).
    exists ap. split; [done|]. intros u. rewrite Hap.
    cbn [list_to_map foldr fst snd].
    destruct (decide (u = v)) as [->|Hneq].
    + rewrite (not_elem_of_list_to_map_1 items v Hv).
      by rewrite !lookup_insert_eq.
    + by rewrite !lookup_insert_ne.
Qed.

Lemma ap_fold_raise (items : list (string * list float64)) acc :
  Exists (λ item, item.2 = []) items →
  rfoldM ap_step acc items = Raise IndexError.
Proof.
  intros H. revert acc. induction items as [|item items IH]; intros acc.
  - by apply Exists_nil in H.
  - cbn [rfoldM].
    destruct (decide (item.2 = [])) as [E|Hne].
    + by rewrite ap_step_nil.
    + rewrite ap_step_ok by done. cbn [mbind result_bind].
      apply IH. apply Exists_cons in H as [?|?]; done.
Qed.

Lemma ap_items_values (pk : gmap string (list float64))
    (items : list (string * list float64)) :
  items ≡ₚ map_to_list pk →
  (∀ u ps, pk !! u = Some ps → ps ≠ []) →
  ap_items items = Ok (ap_values <$> pk).
Proof.
  intros Hperm Hne.
  assert (Hnd : NoDup items.*1).
  { rewrite Hperm. apply NoDup_fst_map_to_list. }
  assert (Hmap : list_to_map items = pk).
  { rewrite (list_to_map_proper items (map_to_list pk) Hnd Hperm).
    apply list_to_map_to_list. }
  assert (Hall : Forall (λ item, item.2 ≠ []) items).
  { apply Forall_forall. intros [u ps] Hin.
    rewrite Hperm in Hin. apply elem_of_map_to_list in Hin. by eapply Hne. }
  destruct (ap_fold_ok items ∅ Hall Hnd) as (ap & Hrun & Hap).
  unfold ap_items. rewrite Hrun. f_equal.
  apply map_eq. intros u.
  rewrite Hap, Hmap, lookup_fmap, lookup_empty.
  by destruct (pk !! u).
Qed.

End ApDictionary.

(** The dictionary comprehension does not depend on the order in which the
    items are visited.  When no precision list is empty it returns a
    dictionary with the same keys, each holding what [calculate_ap] returns
    for the list under that key, of the same length; when some list is
    empty it raises [IndexError]. *)
Theorem ap_items_outcome (pk : gmap string (list float64))
    (items : list (string * list float64)) :
  items ≡ₚ map_to_list pk →
  ((∀ u ps, pk !! u = Some ps → ps ≠ []) →
   ∃ ap, ap_items items = Ok ap ∧ ap_cell pk = Ok ap ∧
         dom ap = dom pk ∧
         ∀ u ps, pk !! u = Some ps →
           ∃ out, ap !! u = Some out ∧
                  run_calculate_ap ps = Ok out ∧
                  length out = length ps) ∧
  ((∃ u, pk !! u = Some []) →
   ap_items items = Raise IndexError ∧ ap_cell pk = Raise IndexError).
Proof.
  intros Hperm. split.
  - intros Hne.
    exists (ap_values <$> pk). unfold ap_cell.
    rewrite (ap_items_values pk items), (ap_items_values pk (map_to_list pk))
      by done.
    split; [done|]. split; [done|]. split; [apply dom_fmap_L|].
    intros u ps Hu. exists (ap_values ps).
    rewrite lookup_fmap, Hu. split; [done|].
    split; [apply run_calculate_ap_ok; by eapply Hne|apply length_ap_values].
  - intros [u Hu].
    assert (Hex : ∀ l, l ≡ₚ map_to_list pk → Exists (λ item, item.2 = []) l).
    { intros l Hl. apply Exists_exists. exists (u, []). split; [|done].
      rewrite Hl. by apply elem_of_map_to_list. }
    unfold ap_cell, ap_items. by rewrite !ap_fold_raise by (apply Hex; done).
Qed.

Lemma ap_items_outcome_witness :
  ((∀ u ps, demo_ap !! u = Some ps → ps ≠ []) →
   ∃ ap, ap_items (reverse (map_to_list demo_ap)) = Ok ap ∧
         ap_cell demo_ap = Ok ap ∧
         dom ap = dom demo_ap ∧
         ∀ u ps, demo_ap !! u = Some ps →
           ∃ out, ap !! u = Some out ∧
                  run_calculate_ap ps = Ok out ∧
                  length out = length ps) ∧
  ((∃ u, demo_ap !! u = Some []) →
   ap_items (reverse (map_to_list demo_ap)) = Raise IndexError ∧
   ap_cell demo_ap = Raise IndexError).
Proof.
  apply (ap_items_outcome demo_ap (reverse (map_to_list demo_ap))).
  apply reverse_Permutation.
Defined.

(** ** Failures and bounds of MAP@k *)

Section MapFailures.

Variable ap_at_k : gmap string (list float64).

Lemma rmapM_first_raise {A B} (f : A → result B) (pre post : list A) (x : A) e :
  (∀ y, y ∈ pre → ∃ v, f y = Ok v) →
  f x = Raise e →
  rmapM f (pre ++ x :: post) = Raise e.
Proof.
  intros Hpre Hx. induction pre as [|y pre IH]; cbn [app rmapM].
  - by rewrite Hx.
  - destruct (Hpre y) as [v ->]; [by left|]. cbn [mbind result_bind].
    rewrite IH; [done|]. intros z Hz. apply Hpre. by right.
Qed.

Lemma rmapM_ok_on {A B} (f : A → result B) (l : list A) :
  (∀ x, x ∈ l → ∃ y, f x = Ok y) → ∃ ys, rmapM f l = Ok ys.
Proof.
  induction l as [|x l IH]; intros Hf; cbn [rmapM]; [by eexists|].
  destruct (Hf x) as [y ->]; [by left|].
  destruct IH as [ys ->]; [intros z Hz; apply Hf; by right|].
  cbn [mbind result_bind]. by eexists.
Qed.

Lemma getitem_nat_raise {A} (xs : list A) (i : nat) :
  xs !! i = None → getitem xs (Z.of_nat i) = Raise IndexError.
Proof.
  intros Hv. unfold getitem.
  assert (E : (Z.of_nat i <? 0) = false) by (apply Z.ltb_ge; lia).
  cbv zeta. rewrite E. cbv iota. rewrite E.
  by rewrite Nat2Z.id, Hv.
Qed.

Lemma user_entry_ok (i : nat) (u : string) c :
  ap_at_k !! u = Some c → (i < length c)%nat →
  ∃ v, (curve ← dict_getitem ap_at_k u; getitem curve (Z.of_nat i)) = Ok v.
Proof.
  intros Hc Hi. destruct (lookup_lt_is_Some_2 c i Hi) as [v Hv].
  exists v. unfold dict_getitem. rewrite Hc. cbn [mbind result_bind].
  by apply getitem_nat.
Qed.

(** The outer comprehension, given the outcome of each of its entries. *)
Lemma map_at_k_entries (users : list string) (P : nat → float64 → Prop) :
  (∀ k, (k < 500)%nat → ∃ v, map_at ap_at_k users (Z.of_nat k) = Ok v ∧ P k v) →
  ∃ maps, map_at_k ap_at_k users = Ok maps ∧
    length maps = 500%nat ∧
    ∀ k, (k < 500)%nat → ∃ m, maps !! k = Some m ∧ P k m.
Proof.
  intros Hk.
  destruct (rmapM_ok_on (map_at ap_at_k users) (range 0 num_k)) as [maps Hmaps].
  { intros z Hz. unfold range in Hz. apply list_elem_of_lookup in Hz as [j Hj].
    apply lookup_seqZ in Hj as [-> Hj]. unfold num_k in Hj.
    destruct (Hk j) as (v & Hv & _); [lia|].
    rewrite Z.add_0_l. by exists v. }
  exists maps. split; [done|].
  pose proof (rmapM_Forall2 _ _ _ Hmaps) as HF.
  split; [by rewrite <- (Forall2_length _ _ _ HF), range_length|].
  intros k Hlt.
  destruct (Forall2_lookup_l _ _ _ k (0 + Z.of_nat k) HF) as (m & Hm & Hf).
  { apply range_lookup. unfold num_k. lia. }
  exists m. split; [done|].
  destruct (Hk k Hlt) as (v & Hv & HP).
  rewrite Z.add_0_l, Hv in Hf. by injection Hf as <-.
Qed.

End MapFailures.

(** MAP@k never skips a user.  When the users before [u] in the list all
    have a curve with an entry at index [i], a user [u] without a curve
    makes the cell raise [KeyError], and a user [u] whose curve has no
    entry at index [i] makes it raise [IndexError]. *)
Theorem map_at_first_failure (ap_at_k : gmap string (list float64))
    (pre post : list string) (u : string) (i : nat) :
  (∀ v, v ∈ pre → ∃ c, ap_at_k !! v = Some c ∧ (i < length c)%nat) →
  (ap_at_k !! u = None →
   map_at ap_at_k (pre ++ u :: post) (Z.of_nat i) = Raise KeyError) ∧
  (∀ c, ap_at_k !! u = Some c → (length c ≤ i)%nat →
   map_at ap_at_k (pre ++ u :: post) (Z.of_nat i) = Raise IndexError).
Proof.
  intros Hpre.
  assert (Hok : ∀ v, v ∈ pre →
    ∃ x, (curve ← dict_getitem ap_at_k v; getitem curve (Z.of_nat i)) = Ok x).
  { intros v Hv. destruct (Hpre v Hv) as (c & Hc & Hi).
    by eapply user_entry_ok. }
  split.
  - intros Hu. unfold map_at.
    rewrite (rmapM_first_raise _ pre post u KeyError); [done|done|].
    unfold dict_getitem. by rewrite Hu.
  - intros c Hu Hlen. unfold map_at.
    rewrite (rmapM_first_raise _ pre post u IndexError); [done|done|].
    unfold dict_getitem. rewrite Hu. cbn [mbind result_bind].
    apply getitem_nat_raise, lookup_ge_None. lia.
Qed.

Lemma map_at_first_failure_witness :
  (demo_ap !! "Aerion" = None →
   map_at demo_ap (["rob"] ++ "Aerion" :: ["fiveofoh"]) (Z.of_nat 2)
   = Raise KeyError) ∧
  (∀ c, demo_ap !! "Aerion" = Some c → (length c ≤ 2)%nat →
   map_at demo_ap (["rob"] ++ "Aerion" :: ["fiveofoh"]) (Z.of_nat 2)
   = Raise IndexError).
Proof.
  apply (map_at_first_failure demo_ap ["rob"] ["fiveofoh"] "Aerion" 2).
  intros v Hv. apply list_elem_of_singleton in Hv as ->.
  eexists. split; [vm_compute; reflexivity|simpl; lia].
Defined.

(** ** Dataset names from the output URI *)

Section DatasetNames.

Variables a b : Ascii.ascii.

Lemma replace_char_cons (c : Ascii.ascii) (s : string) :
  Str.replace_go (String a "") (String b "") 0 (String c s) =
    String (if Ascii.ascii_dec a c then b else c)
           (Str.replace_go (String a "") (String b "") 0 s).
Proof.
  cbn [Str.replace_go String.prefix String.length Nat.sub].
  destruct (Ascii.ascii_dec a c); [|done].
  by destruct s.
Qed.

Lemma replace_char_length (s : string) :
  String.length (Str.replace_go (String a "") (String b "") 0 s) = String.length s.
Proof.
  induction s as [|c s IH]; [done|].
  rewrite replace_char_cons. cbn [String.length]. by rewrite IH.
Qed.

Lemma replace_char_removes (s : string) :
  a ≠ b → ¬ Str.occurs a (Str.replace_go (String a "") (String b "") 0 s).
Proof.
  intros Hab. induction s as [|c s IH]; [by intros []|].
  rewrite replace_char_cons. cbn [Str.occurs]. intros [E|H]; [|done].
  destruct (Ascii.ascii_dec a c); congruence.
Qed.

Lemma replace_char_absent (s : string) :
  ¬ Str.occurs a s → Str.replace_go (String a "") (String b "") 0 s = s.
Proof.
  induction s as [|c s IH]; [done|]. cbn [Str.occurs]. intros H.
  rewrite replace_char_cons, IH by tauto.
  destruct (Ascii.ascii_dec a c); [|done]. tauto.
Qed.

Lemma replace_char_app (s1 s2 : string) :
  Str.replace_go (String a "") (String b "") 0 (String.append s1 s2) =
    String.append (Str.replace_go (String a "") (String b "") 0 s1)
                  (Str.replace_go (String a "") (String b "") 0 s2).
Proof.
  induction s1 as [|c s1 IH]; [done|].
  change (String.append (String c s1) s2) with (String c (String.append s1 s2)).
  rewrite !replace_char_cons, IH. reflexivity.
Qed.

Lemma slice_from_length (n : nat) (s : string) :
  String.length (Str.slice_from n s) = (String.length s - n)%nat.
Proof.
  revert s. induction n as [|n IH]; intros s; [simpl; lia|].
  destruct s as [|c s]; [done|]. apply IH.
Qed.

Lemma slice_from_app (p s : string) :
  Str.slice_from (String.length p) (String.append p s) = s.
Proof. induction p as [|c p IH]; [done|]. apply IH. Qed.

End DatasetNames.

(** The dataset name derived from an output URI never contains a colon and
    has the length of the URI less its first five characters (the empty
    name for a URI of five characters or fewer). *)
Theorem dataset_id_has_no_colon (output_uri : string) :
  ¬ Str.occurs ":"%char (dataset_id output_uri) ∧
  String.length (dataset_id output_uri) = (String.length output_uri - 5)%nat.
Proof.
  unfold dataset_id, Str.replace. split.
  - by apply replace_char_removes.
  - by rewrite replace_char_length, slice_from_length.
Qed.

(** For a URI made of a five-character scheme, a project, a colon and a
    dataset, where project and dataset hold no colon, the derived name is
    [project.dataset]; the scheme itself is dropped without being looked
    at. *)
Theorem dataset_id_of_uri (scheme project dataset : string) :
  String.length scheme = 5%nat →
  ¬ Str.occurs ":"%char project →
  ¬ Str.occurs ":"%char dataset →
  dataset_id (String.append scheme
                (String.append project (String.append ":" dataset)))
  = String.append project (String.append "." dataset).
Proof.
  intros Hlen Hp Hd. unfold dataset_id, Str.replace.
  rewrite <- Hlen, slice_from_app.
  rewrite !replace_char_app.
  rewrite (replace_char_absent _ _ project Hp).
  rewrite (replace_char_absent _ _ dataset Hd).
  reflexivity.
Qed.

Lemma dataset_id_of_uri_witness :
  dataset_id (String.append "bq://"
                (String.append "my-project" (String.append ":" "prediction_1")))
  = String.append "my-project" (String.append "." "prediction_1").
Proof.
  apply (dataset_id_of_uri "bq://" "my-project" "prediction_1").
  - reflexivity.
  - simpl. intuition discriminate.
  - simpl. intuition discriminate.
Defined.

(** ** The cells over any float arithmetic: runs *)

Section GenericRuns.

Context {F : Type} `{Arith F}.

#[local] Existing Instance Generic.Py_ret.
#[local] Existing Instance Generic.Py_bind.

Lemma gbind_ok {A B} (m : Generic.Py A) (f : A → Generic.Py B)
    (σ σ' : gmap positive (list F)) (a : A) :
  m σ = Ok (a, σ') → (m ≫= f) σ = f a σ'.
Proof. unfold mbind, Generic.Py_bind. by intros ->. Qed.

Lemma gbind_raise {A B} (m : Generic.Py A) (f : A → Generic.Py B)
    (σ : gmap positive (list F)) (e : exn) :
  m σ = Raise e → (m ≫= f) σ = Raise e.
Proof. unfold mbind, Generic.Py_bind. by intros ->. Qed.

Lemma glist_read_ok (σ : gmap positive (list F)) (r : positive) xs :
  σ !! r = Some xs → Generic.list_read r σ = Ok (xs, σ).
Proof. unfold Generic.list_read. by intros ->. Qed.

Lemma glist_getitem_ok (σ : gmap positive (list F)) (r : positive) xs (i : Z) v :
  σ !! r = Some xs → getitem xs i = Ok v →
  Generic.list_getitem r i σ = Ok (v, σ).
Proof.
  intros Hr Hi. unfold Generic.list_getitem.
  rewrite (gbind_ok _ _ σ σ xs) by by apply glist_read_ok.
  unfold Generic.lift. by rewrite Hi.
Qed.

Lemma glist_getitem_raise (σ : gmap positive (list F)) (r : positive) xs (i : Z) e :
  σ !! r = Some xs → getitem xs i = Raise e →
  Generic.list_getitem r i σ = Raise e.
Proof.
  intros Hr Hi. unfold Generic.list_getitem.
  rewrite (gbind_ok _ _ σ σ xs) by by apply glist_read_ok.
  unfold Generic.lift. by rewrite Hi.
Qed.

Lemma glist_append_ok (σ : gmap positive (list F)) (r : positive) xs x :
  σ !! r = Some xs →
  Generic.list_append r x σ = Ok (tt, <[r := xs ++ [x]]> σ).
Proof.
  intros Hr. unfold Generic.list_append.
  by rewrite (gbind_ok _ _ σ σ xs) by by apply glist_read_ok.
Qed.

Lemma gappend_loop (ap : positive) (ps pre : list F) (v : F) (σ : gmap positive (list F)) :
  σ !! ap = Some (pre ++ [v]) →
  Generic.for_each
    (λ p, last ← Generic.list_getitem ap (-1);
          Generic.list_append ap (f_add last p)) ps σ
  = Ok (tt, <[ap := pre ++ v :: Generic.running_sums v ps]> σ).
Proof.
  revert pre v σ. induction ps as [|p ps IH]; intros pre v σ Hap.
  - simpl. unfold mret, Generic.Py_ret. by rewrite insert_id.
  - cbn [Generic.for_each Generic.running_sums].
    erewrite gbind_ok; last first.
    { erewrite gbind_ok; [|by eapply glist_getitem_ok, getitem_last].
      by apply glist_append_ok. }
    rewrite (IH (pre ++ [v]) (f_add v p)) by by rewrite lookup_insert_eq.
    by rewrite insert_insert_eq, <- !app_assoc.
Qed.

Lemma gfresh_ne (σ : gmap positive (list F)) (l : positive) xs :
  σ !! l = Some xs → fresh (dom σ) ≠ l.
Proof.
  intros Hl E.
  assert (Hf : σ !! fresh (dom σ) = None) by apply not_elem_of_dom, is_fresh.
  rewrite E, Hl in Hf. done.
Qed.

(** A call on a list object holding [x :: t] returns an object that holds
    the running sums of [x :: t], each divided by its rank. *)
Lemma gcalculate_ap_contents (σ : gmap positive (list F)) (p : positive) x t :
  σ !! p = Some (x :: t) →
  ∃ (r : positive) (σ' : gmap positive (list F)),
    Generic.calculate_ap p σ = Ok (r, σ') ∧
    σ' !! r = Some (Generic.averaged (x :: Generic.running_sums x t)).
Proof.
  intros Hp.
  set (a := fresh (dom σ)).
  set (σ1 := <[a := [x]]> σ).
  set (s := fresh (dom σ1)).
  set (σ3 := <[a := x :: Generic.running_sums x t]> (<[s := t]> σ1)).
  set (r := fresh (dom σ3)).
  exists r, (<[r := Generic.averaged (x :: Generic.running_sums x t)]> σ3).
  split; [|by rewrite lookup_insert_eq].
  unfold Generic.calculate_ap.
  assert (Hap : a ≠ p) by by eapply gfresh_ne.
  assert (Hp1 : σ1 !! p = Some (x :: t)) by by unfold σ1; rewrite lookup_insert_ne.
  assert (Hsa : s ≠ a) by (eapply gfresh_ne; unfold σ1; by rewrite lookup_insert_eq).
  rewrite (gbind_ok _ _ σ σ x) by by eapply glist_getitem_ok.
  rewrite (gbind_ok _ _ σ σ1 a) by done.
  rewrite (gbind_ok _ _ σ1 (<[s := t]> σ1) s); last first.
  { unfold Generic.list_slice_from.
    by rewrite (gbind_ok _ _ σ1 σ1 (x :: t)) by by apply glist_read_ok. }
  rewrite (gbind_ok _ _ (<[s := t]> σ1) σ3 tt); last first.
  { unfold Generic.for_list.
    rewrite (gbind_ok _ _ _ (<[s := t]> σ1) t)
      by by apply glist_read_ok, lookup_insert_eq.
    apply (gappend_loop a t [] x).
    rewrite lookup_insert_ne by done. unfold σ1. by rewrite lookup_insert_eq. }
  assert (Ha3 : σ3 !! a = Some (x :: Generic.running_sums x t))
    by by unfold σ3; rewrite lookup_insert_eq.
  rewrite (gbind_ok _ _ σ3 σ3
             (Z.of_nat (length (x :: Generic.running_sums x t)))); last first.
  { unfold Generic.list_len.
    by rewrite (gbind_ok _ _ σ3 σ3 _ (glist_read_ok _ _ _ Ha3)). }
  by rewrite (gbind_ok _ _ σ3 σ3 _ (glist_read_ok _ _ _ Ha3)).
Qed.

Lemma glookup_averaged (xs : list F) (i : nat) (v : F) :
  xs !! i = Some v →
  Generic.averaged xs !! i = Some (f_div v (f_of_int (Z.of_nat i + 1))).
Proof.
  intros Hi. unfold Generic.averaged, range.
  rewrite list_lookup_fmap.
  assert (Hz : zip xs (seqZ 0 (Z.of_nat (length xs) - 0)) !! i
               = Some (v, Z.of_nat i)).
  { apply lookup_zip_Some. split; [done|].
    apply lookup_seqZ. apply lookup_lt_Some in Hi. lia. }
  by rewrite Hz.
Qed.

Lemma glookup_running_sums (x : F) (t : list F) (i : nat) :
  (i ≤ length t)%nat →
  (x :: Generic.running_sums x t) !! i = Some (fold_left f_add (take i t) x).
Proof.
  revert x i. induction t as [|p t IH]; intros x i Hi.
  - simpl in Hi. by replace i with 0%nat by lia.
  - destruct i as [|i]; [done|].
    simpl in Hi. cbn [Generic.running_sums take fold_left lookup list_lookup].
    apply (IH (f_add x p) i). lia.
Qed.

(** Entry [i] of the result is [(x1 + ... + x(i+1)) / (i + 1)], the sum
    evaluated from the left. *)
Lemma glookup_result (ps : list F) (k : nat) :
  (1 ≤ k ≤ length ps)%nat →
  match ps with
  | [] => True
  | x :: t =>
      Generic.averaged (x :: Generic.running_sums x t) !! (k - 1)%nat
      = Some (f_div (Generic.sum_left (take k ps)) (f_of_int (Z.of_nat k)))
  end.
Proof.
  intros [Hk1 Hk2]. destruct ps as [|x t]; [done|]. simpl in Hk2.
  rewrite (glookup_averaged _ (k - 1) (fold_left f_add (take (k - 1) t) x))
    by (apply glookup_running_sums; lia).
  replace (Z.of_nat (k - 1) + 1) with (Z.of_nat k) by lia.
  destruct k as [|k]; [lia|]. cbn [take Generic.sum_left].
  by replace (S k - 1)%nat with k by lia.
Qed.

End GenericRuns.

(** The cells of the earlier sections are the generic ones at the
    arithmetic without rounding. *)
Lemma calculate_ap_generic (p : loc) (σ : store) :
  Generic.calculate_ap p σ = calculate_ap p σ.
Proof. reflexivity. Qed.

Lemma precision_generic (df : list Row) (k : Z) :
  Generic.precision df k = precision df k ∧ Generic.recall df k = recall df k.
Proof. split; reflexivity. Qed.

(** ** MAP@k over any float arithmetic *)

Section GenericMap.

Context {F : Type} `{Arith F}.

Variable ap_at_k : gmap string (list F).

Lemma gpy_sum_float (vs : list F) (f : F) :
  fold_left Generic.py_add vs (Generic.NpFloat f)
  = Generic.NpFloat (fold_left f_add vs f).
Proof. revert f. induction vs as [|v vs IH]; intros f; simpl; [done|apply IH]. Qed.

(** The builtin [sum] of a non-empty list: [0 + x1 + ... + xn] from the
    left. *)
Lemma gpy_sum_cons (v : F) (vs : list F) :
  Generic.py_sum (v :: vs)
  = Generic.NpFloat (fold_left f_add (v :: vs) (f_of_int 0)).
Proof. unfold Generic.py_sum. cbn [fold_left Generic.py_add]. apply gpy_sum_float. Qed.

Lemma gentries_ok (users : list string) (i : nat) :
  (∀ u, u ∈ users → ∃ c, ap_at_k !! u = Some c ∧ (i < length c)%nat) →
  rmapM (λ u, curve ← dict_getitem ap_at_k u; getitem curve (Z.of_nat i)) users
  = Ok (Generic.entries ap_at_k i users) ∧
  length (Generic.entries ap_at_k i users) = length users.
Proof.
  induction users as [|x users IH]; intros Hu; [done|].
  destruct (Hu x) as (c & Hc & Hi); [by left|].
  destruct (lookup_lt_is_Some_2 c i Hi) as [v Hv].
  destruct IH as [IH1 IH2]; [intros u Hin; apply Hu; by right|].
  unfold Generic.entries in *. cbn [rmapM omap list_omap].
  rewrite IH1. unfold dict_getitem. rewrite Hc. cbn [mbind result_bind].
  rewrite (getitem_nat c i v Hv), Hv. cbn [mbind result_bind].
  split; [done|]. cbn [length]. by rewrite IH2.
Qed.

Lemma gmap_at_nil (k : Z) : Generic.map_at ap_at_k [] k = Raise ZeroDivisionError.
Proof. reflexivity. Qed.

(** For a non-empty user list whose users all have an entry at index [i],
    the value is [(0 + v1 + ... + vn) / n] over the users' entries in the
    order of the list, the sum evaluated from the left. *)
Lemma gmap_at_value (users : list string) (i : nat) :
  users ≠ [] →
  (∀ u, u ∈ users → ∃ c, ap_at_k !! u = Some c ∧ (i < length c)%nat) →
  Generic.map_at ap_at_k users (Z.of_nat i)
  = Ok (Generic.mean_left (Generic.entries ap_at_k i users)).
Proof.
  intros Hne Hu. destruct (gentries_ok users i Hu) as [Hvals Hlen].
  unfold Generic.map_at. rewrite Hvals. cbn [mbind result_bind].
  unfold Generic.mean_left. rewrite Hlen.
  destruct (Generic.entries ap_at_k i users) as [|v vs].
  - destruct users; [done|discriminate].
  - by rewrite gpy_sum_cons.
Qed.

Lemma gentries_perm (users users' : list string) (i : nat) :
  users ≡ₚ users' →
  Generic.entries ap_at_k i users ≡ₚ Generic.entries ap_at_k i users'.
Proof. intros Hp. unfold Generic.entries. by rewrite Hp. Qed.

Lemma gentries_replicate (users : list string) (i : nat) (curve : list F) (a : F) :
  (∀ u, u ∈ users → ap_at_k !! u = Some curve) →
  curve !! i = Some a →
  Generic.entries ap_at_k i users = replicate (length users) a.
Proof.
  intros Hu Ha. induction users as [|x users IH]; [done|].
  unfold Generic.entries in *. cbn [omap list_omap length replicate].
  rewrite (Hu x) by by left. rewrite Ha. f_equal.
  apply IH. intros u Hin. apply Hu. by right.
Qed.

End GenericMap.

Section Reordering.

Context {F : Type} `{Arith F}.

Variable R : relation F.
Hypothesis R_equiv : Equivalence R.
Hypothesis add_proper : Proper (R ==> R ==> R) f_add.
Hypothesis div_proper : Proper (R ==> R ==> R) f_div.
Hypothesis add_assoc : ∀ x y z, R (f_add x (f_add y z)) (f_add (f_add x y) z).
Hypothesis add_comm : ∀ x y, R (f_add x y) (f_add y x).

Lemma fold_left_init (l : list F) (a a' : F) :
  R a a' → R (fold_left f_add l a) (fold_left f_add l a').
Proof.
  revert a a'. induction l as [|x l IH]; intros a a' Ha; [done|].
  cbn [fold_left]. apply IH. by apply add_proper.
Qed.

(** With an associative and commutative addition, a left-to-right sum does
    not depend on the order of its terms. *)
Lemma fold_left_perm (l l' : list F) (a : F) :
  l ≡ₚ l' → R (fold_left f_add l a) (fold_left f_add l' a).
Proof.
  intros Hp. revert a.
  induction Hp as [|x l l' _ IH|x y l|l l' l'' _ IH1 _ IH2]; intros a.
  - done.
  - cbn [fold_left]. apply IH.
  - cbn [fold_left]. apply fold_left_init.
    rewrite <- !add_assoc. apply add_proper; [done|apply add_comm].
  - by rewrite IH1.
Qed.

Lemma mean_left_perm (l l' : list F) :
  l ≡ₚ l' → R (Generic.mean_left l) (Generic.mean_left l').
Proof.
  intros Hp. unfold Generic.mean_left. rewrite (Permutation_length Hp).
  apply div_proper; [by apply fold_left_perm|done].
Qed.

End Reordering.

(** C1, as stated, fails in binary64.  The labels 0, 1, 0 give the
    precisions 0/1, 1/2 and 1/3 (the nearest float to one third).  Entry 3
    of the AP curve is 0.27777777777777773, which is neither the mean of
    the three precisions nor the float nearest to that mean (the next
    float up is nearer). *)
Lemma running_mean_exact_counterexample :
  rmapM (Generic.precision thirds_df) [1; 2; 3] = Ok thirds ∧
  ∃ (r : positive) (σ' : gmap positive (list B64.float))
    (out : list B64.float) (v : B64.float) (q0 q1 q2 qv qn : Q),
    Generic.calculate_ap 5%positive thirds_store = Ok (r, σ') ∧
    σ' !! r = Some out ∧
    out !! 2%nat = Some v ∧
    B64.exact <$> thirds = [Some q0; Some q1; Some q2] ∧
    B64.exact v = Some qv ∧
    B64.exact (PrimFloat.next_up v) = Some qn ∧
    (qv < (q0 + q1 + q2) / 3)%Q ∧
    (qn - (q0 + q1 + q2) / 3 < (q0 + q1 + q2) / 3 - qv)%Q.
Proof.
  split; [vm_compute; reflexivity|].
  destruct (gcalculate_ap_contents thirds_store 5%positive
              (B64.ratio 0 1) [B64.ratio 1 2; B64.ratio 1 3])
    as (r & σ' & Hrun & Hout); [vm_compute; reflexivity|].
  exists r, σ'. do 7 eexists.
  split; [exact Hrun|]. split; [exact Hout|].
  split; [vm_compute; reflexivity|].
  split; [vm_compute; reflexivity|].
  split; [vm_compute; reflexivity|].
  split; [vm_compute; reflexivity|].
  split; vm_compute; reflexivity.
Qed.

(** C1, amended.  For every non-empty precision sequence and every rank
    [1 <= k <= len(p)], in any float arithmetic and so in binary64, the
    result has the length of [p] and its entry of rank [k] (index [k - 1])
    is the float expression [(p1 + p2 + ... + pk) / k], the sum evaluated
    from the left.  In binary64 the precisions [1.0, 0.5, 0.667] give
    [1.000, 0.750, 0.722] to three decimals. *)
Theorem calculate_ap_left_to_right :
  (∀ (F : Type) (A : Arith F) (σ : gmap positive (list F)) (p : positive)
     (ps : list F) (k : nat),
      σ !! p = Some ps → (1 ≤ k ≤ length ps)%nat →
      ∃ (r : positive) (σ' : gmap positive (list F)) (out : list F),
        Generic.calculate_ap p σ = Ok (r, σ') ∧
        σ' !! r = Some out ∧
        length out = length ps ∧
        out !! (k - 1)%nat
        = Some (f_div (Generic.sum_left (take k ps)) (f_of_int (Z.of_nat k)))) ∧
  (∃ (r : positive) (σ' : gmap positive (list B64.float))
     (out : list B64.float),
      Generic.calculate_ap 5%positive b64_store = Ok (r, σ') ∧
      σ' !! r = Some out ∧
      B64.round3 <$> out = [Some 1000; Some 750; Some 722]).
Proof.
  split.
  - intros F A σ p ps k Hp Hk.
    destruct ps as [|x t]; [simpl in Hk; lia|].
    destruct (gcalculate_ap_contents σ p x t Hp) as (r & σ' & Hrun & Hout).
    exists r, σ', (Generic.averaged (x :: Generic.running_sums x t)).
    split; [done|]. split; [done|]. split.
    + unfold Generic.averaged, range.
      rewrite length_fmap, length_zip, length_seqZ.
      assert (Hlen : ∀ (a : F) l, length (Generic.running_sums a l) = length l).
      { intros a l. revert a. induction l as [|y l IH]; intros a; [done|].
        cbn [Generic.running_sums length]. by rewrite IH. }
      cbn [length]. rewrite Hlen. lia.
    + apply (glookup_result (x :: t) k Hk).
  - destruct (gcalculate_ap_contents b64_store 5%positive
                (B64.ratio 1 1) [B64.ratio 1 2; B64.ratio 667 1000])
      as (r & σ' & Hrun & Hout); [vm_compute; reflexivity|].
    eexists r, σ', _. split; [exact Hrun|]. split; [exact Hout|].
    vm_compute. reflexivity.
Qed.

Lemma calculate_ap_left_to_right_witness :
  ∃ (r : positive) (σ' : gmap positive (list B64.float))
    (out : list B64.float),
    Generic.calculate_ap 5%positive b64_store = Ok (r, σ') ∧
    σ' !! r = Some out ∧
    length out = length [B64.ratio 1 1; B64.ratio 1 2; B64.ratio 667 1000] ∧
    out !! (3 - 1)%nat
    = Some (f_div (Generic.sum_left
                     (take 3 [B64.ratio 1 1; B64.ratio 1 2; B64.ratio 667 1000]))
                  (f_of_int (Z.of_nat 3))).
Proof.
  apply (proj1 calculate_ap_left_to_right B64.float binary64_arith
           b64_store 5%positive).
  - vm_compute. reflexivity.
  - simpl. lia.
Defined.

(** C7, as stated, fails in binary64.  With the AP values 0.1, 0.2 and 0.3
    the user order rob, fiveofoh, Aerion gives 0.20000000000000004 and the
    reversed order gives 0.19999999999999998. *)
Lemma map_at_order_counterexample :
  ["rob"; "fiveofoh"; "Aerion"] ≡ₚ ["Aerion"; "fiveofoh"; "rob"] ∧
  ∃ (x y : B64.float) (qx qy : Q),
    Generic.map_at tenths_ap ["rob"; "fiveofoh"; "Aerion"] 0 = Ok x ∧
    Generic.map_at tenths_ap ["Aerion"; "fiveofoh"; "rob"] 0 = Ok y ∧
    B64.exact x = Some qx ∧ B64.exact y = Some qy ∧
    (qy < qx)%Q ∧ x ≠ y.
Proof.
  split; [apply (reverse_Permutation ["Aerion"; "fiveofoh"; "rob"])|].
  do 4 eexists.
  split; [vm_compute; reflexivity|]. split; [vm_compute; reflexivity|].
  split; [vm_compute; reflexivity|]. split; [vm_compute; reflexivity|].
  split; [vm_compute; reflexivity|].
  intros E. apply (f_equal B64.exact) in E. vm_compute in E. discriminate.
Qed.

(** C7, amended.  Let every supplied user have an AP curve of at least [k]
    entries.  Without users both orders raise [ZeroDivisionError].
    Otherwise, in any float arithmetic and so in binary64, MAP at cut-off
    [k] is [(0 + v1 + ... + vn) / n] over the users' entries in the order
    supplied, the sum evaluated from the left, and a reordering of the
    users only reorders the terms of that sum.  The two values are equal
    whenever addition is associative and commutative, as it is without
    rounding; binary64 addition is not associative. *)
Theorem map_at_reordering {F : Type} `{Arith F} (R : relation F)
    (ap_at_k : gmap string (list F)) (users users' : list string) (k : nat) :
  users ≡ₚ users' →
  (1 ≤ k)%nat →
  (∀ u, u ∈ users → ∃ c, ap_at_k !! u = Some c ∧ (k ≤ length c)%nat) →
  match users with
  | [] =>
      Generic.map_at ap_at_k users (Z.of_nat k - 1) = Raise ZeroDivisionError ∧
      Generic.map_at ap_at_k users' (Z.of_nat k - 1) = Raise ZeroDivisionError
  | _ :: _ =>
      Generic.map_at ap_at_k users (Z.of_nat k - 1)
      = Ok (Generic.mean_left (Generic.entries ap_at_k (k - 1) users)) ∧
      Generic.map_at ap_at_k users' (Z.of_nat k - 1)
      = Ok (Generic.mean_left (Generic.entries ap_at_k (k - 1) users')) ∧
      Generic.entries ap_at_k (k - 1) users
      ≡ₚ Generic.entries ap_at_k (k - 1) users' ∧
      (Equivalence R →
       Proper (R ==> R ==> R) f_add →
       Proper (R ==> R ==> R) f_div →
       (∀ x y z, R (f_add x (f_add y z)) (f_add (f_add x y) z)) →
       (∀ x y, R (f_add x y) (f_add y x)) →
       R (Generic.mean_left (Generic.entries ap_at_k (k - 1) users))
         (Generic.mean_left (Generic.entries ap_at_k (k - 1) users')))
  end.
Proof.
  intros Hperm Hk Hcurves.
  replace (Z.of_nat k - 1) with (Z.of_nat (k - 1)) by lia.
  assert (Hu : ∀ u, u ∈ users →
            ∃ c, ap_at_k !! u = Some c ∧ (k - 1 < length c)%nat).
  { intros u Hin. destruct (Hcurves u Hin) as (c & Hc & Hlen).
    exists c. split; [done|lia]. }
  assert (Hu' : ∀ u, u ∈ users' →
            ∃ c, ap_at_k !! u = Some c ∧ (k - 1 < length c)%nat).
  { intros u Hin. apply Hu. by rewrite Hperm. }
  destruct users as [|x users].
  - apply Permutation_nil_l in Hperm. subst users'. by rewrite !gmap_at_nil.
  - assert (Hne' : users' ≠ []).
    { intros ->. by apply Permutation_nil_r in Hperm. }
    split; [by apply gmap_at_value|]. split; [by apply gmap_at_value|].
    pose proof (gentries_perm ap_at_k _ _ (k - 1) Hperm) as Hent.
    split; [done|]. intros HR Hadd Hdiv Hassoc Hcomm.
    by apply (mean_left_perm R HR Hadd Hdiv Hassoc Hcomm).
Qed.

Lemma map_at_reordering_witness :
  Generic.map_at tenths_exact_ap ["rob"; "fiveofoh"; "Aerion"] (Z.of_nat 1 - 1)
  = Ok (Generic.mean_left
          (Generic.entries tenths_exact_ap (1 - 1) ["rob"; "fiveofoh"; "Aerion"])) ∧
  Generic.map_at tenths_exact_ap ["Aerion"; "fiveofoh"; "rob"] (Z.of_nat 1 - 1)
  = Ok (Generic.mean_left
          (Generic.entries tenths_exact_ap (1 - 1) ["Aerion"; "fiveofoh"; "rob"])) ∧
  feq (Generic.mean_left
         (Generic.entries tenths_exact_ap (1 - 1) ["rob"; "fiveofoh"; "Aerion"]))
      (Generic.mean_left
         (Generic.entries tenths_exact_ap (1 - 1) ["Aerion"; "fiveofoh"; "rob"])).
Proof.
  destruct (map_at_reordering feq tenths_exact_ap
              ["rob"; "fiveofoh"; "Aerion"] ["Aerion"; "fiveofoh"; "rob"] 1)
    as (H1 & H2 & _ & H4).
  - apply (reverse_Permutation ["Aerion"; "fiveofoh"; "rob"]).
  - lia.
  - intros u Hu. apply elem_of_cons in Hu as [->|Hu];
      [eexists; split; [vm_compute; reflexivity|simpl; lia]|].
    apply elem_of_cons in Hu as [->|Hu];
      [eexists; split; [vm_compute; reflexivity|simpl; lia]|].
    apply list_elem_of_singleton in Hu as ->.
    eexists; split; [vm_compute; reflexivity|simpl; lia].
  - split; [exact H1|]. split; [exact H2|].
    apply H4.
    + apply feq_equiv.
    + apply fadd_proper.
    + apply fdiv_proper.
    + apply fadd_assoc.
    + apply fadd_comm.
Defined.

(** ** The MAP cell and the two cells in sequence *)

Section MapCell.

Lemma py_sum_generic (vs : list float64) (n : Z) :
  Generic.py_truediv (Generic.py_sum vs) n = py_truediv (py_sum vs) n.
Proof.
  destruct vs as [|v vs].
  - unfold Generic.py_sum, py_sum. cbn [fold_left].
    unfold Generic.py_truediv, py_truediv.
    destruct (Z.eqb_spec n 0) as [->|Hn]; [done|].
    f_equal. by apply fdiv_of_Z_nonzero.
  - rewrite gpy_sum_cons. unfold py_sum. cbn [fold_left py_add].
    assert (Hf : ∀ l f, fold_left py_add l (NpFloat f)
                        = NpFloat (fold_left fadd l f)).
    { induction l as [|y l IH]; intros f; [done|]. apply IH. }
    by rewrite Hf.
Qed.

(** [map_at] is the generic cell at the arithmetic without rounding. *)
Lemma map_at_generic (ap_at_k : gmap string (list float64))
    (users : list string) (k : Z) :
  Generic.map_at ap_at_k users k = map_at ap_at_k users k.
Proof.
  unfold Generic.map_at, map_at.
  destruct (rmapM _ users) as [vals|e]; [|done].
  cbn [mbind result_bind]. apply py_sum_generic.
Qed.

Lemma map_at_k_values (ap_at_k : gmap string (list float64))
    (users : list string) :
  users ≠ [] →
  (∀ u, u ∈ users → ∃ c, ap_at_k !! u = Some c ∧ (500 ≤ length c)%nat) →
  ∃ maps, map_at_k ap_at_k users = Ok maps ∧
    length maps = 500%nat ∧
    (∃ m, getitem maps 49 = Ok m) ∧
    ∀ k, (k < 500)%nat →
      maps !! k = Some (Generic.mean_left (Generic.entries ap_at_k k users)).
Proof.
  intros Hne Hcurves.
  destruct (map_at_k_entries ap_at_k users
              (λ k m, m = Generic.mean_left (Generic.entries ap_at_k k users)))
    as (maps & Hmaps & Hlen & Hent).
  { intros k Hlt. eexists. split; [|done].
    rewrite <- map_at_generic. apply gmap_at_value; [done|].
    intros u Hu. destruct (Hcurves u Hu) as (c & Hc & Hc').
    exists c. split; [done|lia]. }
  exists maps. split; [done|]. split; [done|]. split.
  - destruct (Hent 49%nat) as (m & Hm & _); [lia|].
    exists m. by apply (getitem_nat maps 49 m).
  - intros k Hk. by destruct (Hent k Hk) as (m & -> & ->).
Qed.

End MapCell.

(** When every user has an AP curve of at least [num_k] = 500 entries, the
    comprehension [map_at_k] raises [ZeroDivisionError] for an empty user
    list and otherwise returns 500 values, the value at index [k] being the
    float expression [(0 + v1 + ... + vn) / n] over the users' entries at
    index [k] in the order of the list, the sum evaluated from the left;
    the printed [map_at_k[49]] is then defined. *)
Theorem map_at_k_outcome (ap_at_k : gmap string (list float64))
    (users : list string) :
  (∀ u, u ∈ users → ∃ c, ap_at_k !! u = Some c ∧ (500 ≤ length c)%nat) →
  (users = [] → map_at_k ap_at_k users = Raise ZeroDivisionError) ∧
  (users ≠ [] →
   ∃ maps, map_at_k ap_at_k users = Ok maps ∧
     length maps = 500%nat ∧
     (∃ m, getitem maps 49 = Ok m) ∧
     ∀ k, (k < 500)%nat →
       maps !! k = Some (Generic.mean_left (Generic.entries ap_at_k k users))).
Proof.
  intros Hcurves. split; [by intros ->|]. intros Hne.
  destruct (map_at_k_values ap_at_k users Hne Hcurves)
    as (maps & Hmaps & Hlen & H49 & Hent).
  exists maps. split; [done|]. split; [done|]. split; done.
Qed.

Lemma map_at_k_outcome_witness :
  (["rob"; "fiveofoh"] = [] →
   map_at_k long_ap ["rob"; "fiveofoh"] = Raise ZeroDivisionError) ∧
  (["rob"; "fiveofoh"] ≠ [] →
   ∃ maps, map_at_k long_ap ["rob"; "fiveofoh"] = Ok maps ∧
     length maps = 500%nat ∧
     (∃ m, getitem maps 49 = Ok m) ∧
     ∀ k, (k < 500)%nat →
       maps !! k
       = Some (Generic.mean_left (Generic.entries long_ap k ["rob"; "fiveofoh"]))).
Proof.
  apply (map_at_k_outcome long_ap ["rob"; "fiveofoh"]).
  intros u Hu. apply elem_of_cons in Hu as [->|Hu].
  - exists (replicate 500 (Fin 1)). split; [reflexivity|].
    rewrite length_replicate. lia.
  - apply list_elem_of_singleton in Hu as ->.
    exists (replicate 600 (Fin 0)). split; [reflexivity|].
    rewrite length_replicate. lia.
Defined.

(** The two cells run in sequence on any frame.  With an empty user list
    the run stops with [IndexError] at [users[0]] in the first cell.  With
    a non-empty user list nothing is raised outside the calls of the
    plotting library: all users hold one and the
    same AP curve of 999 entries, [map_at_k] has 500 entries, and MAP at
    index [k] is the float expression [(0 + a + ... + a) / n] over [n]
    copies of the AP entry [a] at index [k], [n] being the number of
    users. *)
Theorem evaluation_outcome (users : list string) (df : list Row) :
  (users = [] → evaluation users df = Raise IndexError) ∧
  (users ≠ [] →
   ∃ pk rk ap maps curve,
     evaluation users df = Ok (pk, rk, ap, maps) ∧
     length maps = 500%nat ∧
     length curve = 999%nat ∧
     (∀ u, u ∈ users → ap !! u = Some curve) ∧
     ∀ k, (k < 500)%nat →
       ∃ a, curve !! k = Some a ∧
            maps !! k
            = Some (Generic.mean_left (replicate (length users) a))).
Proof.
  split; [by intros ->|]. intros Hne.
  destruct (metrics_cell_ok df users) as (pk & rk & Hcell).
  destruct (metrics_cell_lookup df users pk rk Hcell) as (Hdp & _ & Hall).
  assert (Hlen : ∀ u ps, pk !! u = Some ps → length ps = 999%nat).
  { intros u ps Hu.
    assert (Hin : u ∈ users).
    { apply (elem_of_list_to_set (C:=gset string)). rewrite <- Hdp.
      apply elem_of_dom. by eexists. }
    destruct (Hall u Hin) as (ps' & rs & Hc & Hu' & _).
    rewrite Hu in Hu'. injection Hu' as <-.
    by destruct (curves_for_entries df u ps rs Hc) as [? _]. }
  assert (Hap : ap_cell pk = Ok (ap_values <$> pk)).
  { apply ap_items_values; [done|]. intros u ps Hu ->.
    by apply Hlen in Hu. }
  destruct users as [|x0 users']; [done|]. set (users := x0 :: users') in *.
  destruct (Hall x0) as (ps0 & rs0 & _ & Hp0 & Hr0); [by left|].
  assert (Hsame : ∀ u, u ∈ users → (ap_values <$> pk) !! u = Some (ap_values ps0)).
  { intros u Hu.
    destruct (metrics_cell_same_curves df users pk rk u x0 Hcell Hu) as [Hpu _];
      [by left|].
    by rewrite lookup_fmap, Hpu, Hp0. }
  assert (Hout : length (ap_values ps0) = 999%nat)
    by (rewrite length_ap_values; by eapply Hlen).
  destruct (map_at_k_values (ap_values <$> pk) users Hne)
    as (maps & Hmaps & Hmlen & [m49 H49] & Hent).
  { intros u Hu. exists (ap_values ps0). split; [by apply Hsame|lia]. }
  exists pk, rk, (ap_values <$> pk), maps, (ap_values ps0). split.
  { unfold evaluation, precision_recall_cell, map_cell.
    rewrite Hcell. cbn [mbind result_bind].
    change (getitem users 0) with (Ok x0 : result string).
    cbn [mbind result_bind]. unfold dict_getitem. rewrite Hr0, Hp0.
    cbn [mbind result_bind]. rewrite Hap. cbn [mbind result_bind].
    rewrite Hmaps. cbn [mbind result_bind]. by rewrite H49. }
  split; [done|]. split; [done|]. split; [done|]. intros k Hk.
  destruct (lookup_lt_is_Some_2 (ap_values ps0) k) as [a Ha]; [lia|].
  exists a. split; [done|]. rewrite (Hent k Hk).
  by rewrite (gentries_replicate _ users k (ap_values ps0) a Hsame Ha).
Qed.

Lemma evaluation_outcome_witness :
  ∃ pk rk ap maps curve,
    evaluation ["rob"; "fiveofoh"] demo_df = Ok (pk, rk, ap, maps) ∧
    length maps = 500%nat ∧
    length curve = 999%nat ∧
    (∀ u, u ∈ ["rob"; "fiveofoh"] → ap !! u = Some curve) ∧
    ∀ k, (k < 500)%nat →
      ∃ a, curve !! k = Some a ∧
           maps !! k
           = Some (Generic.mean_left (replicate (length ["rob"; "fiveofoh"]) a)).
Proof.
  apply (proj2 (evaluation_outcome ["rob"; "fiveofoh"] demo_df)).
  discriminate.
Defined.
